(** * vizio-smart-cast: the SmartCast client of [index.js]

    A shallow embedding of the session object built by [SMARTCAST] and of
    the requests its methods put on the wire, with the properties of the
    pairing handshake, of the input and volume accessors and of the key
    commands.

    Layout: the JavaScript values the code handles and the primitives it
    applies to them (1), promises and the transport as a tree of
    interactions with the outside (2), the functions of [index.js] in
    source order (3), how such a tree runs against a device (4), the
    vocabulary of the properties (5), and the properties themselves:
    general facts (6), key commands (7), pairing (8), volume (9), input
    selection (10), the AUTH header (11) and transport failures (12). *)

From Stdlib Require Import String Ascii List ZArith QArith Qround Bool Lia.
From Stdlib Require Import DecimalString.
Import ListNotations.
Open Scope list_scope.
Open Scope string_scope.
Set Warnings "-register-all".

(* ================================================================== *)
(** ** 1. JavaScript values *)
(* ================================================================== *)

(** Numbers are the rationals together with the three special values. Every
    finite double is a rational, so the comparisons and [Math.round] below
    are exact on them; the sign of zero is not kept. *)
Inductive number : Type :=
| NaN
| Infinity (negative : bool)
| Finite (q : Q).

(** Requests, responses, arguments and rejection reasons. [VError m] is
    [new Error(m)]; [VTypeError] is the TypeError the engine raises when a
    property of [undefined] or [null] is read or a non-function is
    called (its message differs between engines and is not kept). *)
Inductive value : Type :=
| VUndefined
| VNull
| VBool (b : bool)
| VNumber (n : number)
| VString (s : string)
| VArray (items : list value)
| VObject (fields : list (string * value))
| VError (message : string)
| VTypeError.

Definition num (z : Z) : value := VNumber (Finite (inject_Z z)).

(** The result of evaluating an expression: a value, an exception, or
    [Unmodelled] where the expression needs a coercion of the language
    that this development does not describe (indexing a string, the
    [length] of an array-like object, [Math.round] of a non-number). *)
Inductive completion (A : Type) : Type :=
| Normal (a : A)
| Throw (e : value)
| Unmodelled.
Arguments Normal {A} a.
Arguments Throw {A} e.
Arguments Unmodelled {A}.

Definition bindC {A B} (c : completion A) (k : A -> completion B) : completion B :=
  match c with
  | Normal a => k a
  | Throw e => Throw e
  | Unmodelled => Unmodelled
  end.

Notation "x <~ c ;; k" := (bindC c (fun x => k))
  (at level 61, c at next level, right associativity).

(** [if (v)], [!v], [v || d], [v && e]. *)
Definition truthy (v : value) : bool :=
  match v with
  | VUndefined | VNull => false
  | VBool b => b
  | VNumber NaN => false
  | VNumber (Infinity _) => true
  | VNumber (Finite q) => negb (Qeq_bool q 0)
  | VString s => negb (s =? "")
  | VArray _ | VObject _ | VError _ | VTypeError => true
  end.

Fixpoint lookup (k : string) (fields : list (string * value)) : value :=
  match fields with
  | [] => VUndefined
  | (k', v) :: rest => if k' =? k then v else lookup k rest
  end.

(** [v.k] for the keys of the device protocol (none of them is inherited
    from a prototype): reading a property of [undefined] or [null] throws,
    an object gives the field or [undefined], anything else [undefined]. *)
Definition get_prop (v : value) (k : string) : completion value :=
  match v with
  | VUndefined | VNull => Throw VTypeError
  | VObject fields => Normal (lookup k fields)
  | _ => Normal VUndefined
  end.

(** [v === 'literal']. *)
Definition is_string (v : value) (literal : string) : bool :=
  match v with
  | VString s => s =? literal
  | _ => false
  end.

(** [typeof v === 'number']. *)
Definition is_number (v : value) : bool :=
  match v with
  | VNumber _ => true
  | _ => false
  end.

(** [a < b] on numbers. *)
Definition num_ltb (a b : number) : bool :=
  match a, b with
  | NaN, _ | _, NaN => false
  | Infinity true, Infinity true => false
  | Infinity true, _ => true
  | _, Infinity true => false
  | Infinity false, _ => false
  | _, Infinity false => true
  | Finite p, Finite q => negb (Qle_bool q p)
  end.

(** [Math.round]: the nearest integer, halves going up. *)
Definition Math_round (v : value) : completion value :=
  match v with
  | VNumber (Finite q) => Normal (VNumber (Finite (inject_Z (Qfloor (q + (1 # 2))))))
  | VNumber n => Normal (VNumber n)
  | _ => Unmodelled
  end.

(** The letters A-Z folded to a-z, every other character kept. *)
Definition fold_ascii (c : ascii) : ascii :=
  let n := nat_of_ascii c in
  if (65 <=? n)%nat && (n <=? 90)%nat then ascii_of_nat (n + 32) else c.

Fixpoint fold (s : string) : string :=
  match s with
  | EmptyString => EmptyString
  | String c rest => String (fold_ascii c) (fold rest)
  end.

(** A string of ASCII characters only. *)
Fixpoint ascii_only (s : string) : bool :=
  match s with
  | EmptyString => true
  | String c rest => (nat_of_ascii c <? 128)%nat && ascii_only rest
  end.

(** [String.prototype.toLowerCase] belongs to the engine, not to this
    program: it folds every cased letter of Unicode, by tables of its own.
    [lower] stands for it, on strings in whatever encoding the values use;
    the one fact used of it is what it does on ASCII strings, where it
    folds A-Z and nothing else. *)
Class Engine : Type := {
  lower : string -> string;
  lower_ascii : forall s, ascii_only s = true -> lower s = fold s
}.

(** The engine of the examples, which are all on ASCII strings. *)
Definition ascii_engine : Engine :=
  {| lower := fold; lower_ascii := fun s _ => eq_refl |}.

(** [v.toLowerCase()]: only a string has the method. *)
Definition toLowerCase {JS : Engine} (v : value) : completion string :=
  match v with
  | VString s => Normal (lower s)
  | _ => Throw VTypeError
  end.

(** The elements a [for (i = 0; i < v.length; i++) ... v[i]] loop visits. *)
Definition elements (v : value) : completion (list value) :=
  match v with
  | VArray items => Normal items
  | VUndefined | VNull => Throw VTypeError
  | _ => Unmodelled
  end.

(** [v[i]]. *)
Definition index (v : value) (i : nat) : completion value :=
  match v with
  | VArray items => Normal (nth i items VUndefined)
  | VUndefined | VNull => Throw VTypeError
  | _ => Unmodelled
  end.

(** ['' + n] for an integer. *)
Definition string_of_Z (z : Z) : string := NilZero.string_of_int (Z.to_int z).

(* ================================================================== *)
(** ** 2. Promises and the transport *)
(* ================================================================== *)

(** The state a promise ends in; [Pending] is a promise that is never
    settled. *)
Inductive outcome : Type :=
| Fulfilled (v : value)
| Rejected (e : value)
| Pending.

Inductive method : Type := GET | PUT.

(** The options object handed to [request[method]]. [headers] is [None]
    when the object has no such property. *)
Record request : Type := {
  url : string;
  json : bool;
  rejectUnauthorized : bool;
  body : value;
  headers : option (list (string * value))
}.

(** A computation that talks to the outside: it ends with a result, reads
    the clock ([new Date().getTime()]), hands a request to the transport and
    goes on with the state its promise ends in, or asks which of two
    rejected promises was rejected first. [Stuck] is a computation that ran
    into an [Unmodelled] expression. *)
Inductive io (A : Type) : Type :=
| Ret (a : A)
| Clock (k : Z -> io A)
| Http (m : method) (r : request) (k : outcome -> io A)
| Race (k : bool -> io A)
| Stuck.
Arguments Ret {A} a.
Arguments Clock {A} k.
Arguments Http {A} m r k.
Arguments Race {A} k.
Arguments Stuck {A}.

Fixpoint bind {A B} (p : io A) (f : A -> io B) : io B :=
  match p with
  | Ret a => f a
  | Clock k => Clock (fun t => bind (k t) f)
  | Http m r k => Http m r (fun o => bind (k o) f)
  | Race k => Race (fun b => bind (k b) f)
  | Stuck => Stuck
  end.

Notation "x <- p ;; k" := (bind p (fun x => k))
  (at level 61, p at next level, right associativity).

(** The promise built by [new Promise(executor)] keeps its first
    settlement: a later [resolve], [reject] or exception of the executor
    changes nothing. [first] is what the executor has done so far. *)
Definition settle (first : option outcome) (o : outcome) : outcome :=
  match first with
  | Some o1 => o1
  | None => o
  end.

(** [Promise.all([p1, p2])]: fulfilled with both values once both are;
    rejected with the reason of whichever promise is rejected first. *)
Inductive joined : Type :=
| AllFulfilled (v1 v2 : value)
| FirstRejected (e : value)
| NeverSettled.

Definition Promise_all (o1 o2 : outcome) : io joined :=
  match o1, o2 with
  | Fulfilled v1, Fulfilled v2 => Ret (AllFulfilled v1 v2)
  | Rejected e1, Rejected e2 => Race (fun first => Ret (FirstRejected (if first then e1 else e2)))
  | Rejected e1, _ => Ret (FirstRejected e1)
  | _, Rejected e2 => Ret (FirstRejected e2)
  | _, _ => Ret NeverSettled
  end.

(* ================================================================== *)
(** ** 3. [index.js] *)
(* ================================================================== *)

Definition PROTO : string := "https://".
Definition PORT : Z := 9000.

(** [sendRequest(method, url, authKey, data)]: the AUTH header is set only
    for a truthy [authKey]. *)
Definition sendRequest (m : method) (url : string) (authKey data : value) : io outcome :=
  let req := {| url := url;
                json := true;
                rejectUnauthorized := false;
                body := data;
                headers := if truthy authKey then Some [("AUTH", authKey)] else None |} in
  Http m req Ret.

Definition keyData (codeset code action : value) : value :=
  let action := if negb (truthy action) then VString "KEYPRESS" else action in
  VObject [("KEYLIST",
            VArray [VObject [("CODESET", codeset); ("CODE", code); ("ACTION", action)]])].

(** The first loop of [findInputByName]: search by internal name. [None]
    is a loop that ran to its end. *)
Fixpoint search_internal {JS : Engine} (name : string) (items : list value) : completion (option value) :=
  match items with
  | [] => Normal None
  | item :: rest =>
      NAME <~ get_prop item "NAME" ;;
      l <~ toLowerCase NAME ;;
      if l =? lower name then Normal (Some NAME) else search_internal name rest
  end.

(** The second loop: search by user name. *)
Fixpoint search_user {JS : Engine} (name : string) (items : list value) : completion (option value) :=
  match items with
  | [] => Normal None
  | item :: rest =>
      VALUE <~ get_prop item "VALUE" ;;
      NAME <~ get_prop VALUE "NAME" ;;
      l <~ toLowerCase NAME ;;
      if l =? lower name
      then (internal <~ get_prop item "NAME" ;; Normal (Some internal))
      else search_user name rest
  end.

Definition findInputByName {JS : Engine} (name : string) (list : value) : completion value :=
  ITEMS <~ get_prop list "ITEMS" ;;
  items <~ elements ITEMS ;;
  by_internal <~ search_internal name items ;;
  match by_internal with
  | Some internal => Normal internal
  | None =>
      by_user <~ search_user name items ;;
      match by_user with
      | Some internal => Normal internal
      | None => Normal VNull
      end
  end.

(** The variables the closures of [SMARTCAST] share, with the [host] the
    constructor computes once. *)
Record session : Type := {
  host : string;
  _pairingRequestToken : value;
  _authKey : value;
  _deviceId : value;
  _deviceName : value
}.

Definition set_pairingRequestToken (s : session) (v : value) : session :=
  {| host := host s; _pairingRequestToken := v; _authKey := _authKey s;
     _deviceId := _deviceId s; _deviceName := _deviceName s |}.

Definition set_authKey (s : session) (v : value) : session :=
  {| host := host s; _pairingRequestToken := _pairingRequestToken s; _authKey := v;
     _deviceId := _deviceId s; _deviceName := _deviceName s |}.

Definition set_deviceId (s : session) (v : value) : session :=
  {| host := host s; _pairingRequestToken := _pairingRequestToken s; _authKey := _authKey s;
     _deviceId := v; _deviceName := _deviceName s |}.

Definition set_deviceName (s : session) (v : value) : session :=
  {| host := host s; _pairingRequestToken := _pairingRequestToken s; _authKey := _authKey s;
     _deviceId := _deviceId s; _deviceName := v |}.

(** [new SMARTCAST(host, authKey)]. *)
Definition SMARTCAST (host : string) (authKey : value) : session :=
  let host := match String.index 0 ":" host with
              | None => host ++ ":" ++ string_of_Z PORT
              | Some _ => host
              end in
  {| host := PROTO ++ host;
     _pairingRequestToken := VString "";
     _authKey := if truthy authKey then authKey else VString "";
     _deviceId := VString "";
     _deviceName := VString "" |}.

(** [p.then(callback)] where the callback reads and writes the session.
    The callback gives the state of the promise it returns together with
    the session it leaves; when it throws, the promise is rejected with the
    exception. In the callbacks below every expression that can throw is
    evaluated before the one assignment of the callback, so an exception
    leaves the session as it was. *)
Definition then_result (o : outcome) (s : session)
    (callback : value -> session -> completion (outcome * session))
    : option (outcome * session) :=
  match o with
  | Fulfilled data =>
      match callback data s with
      | Normal r => Some r
      | Throw e => Some (Rejected e, s)
      | Unmodelled => None
      end
  | Rejected e => Some (Rejected e, s)
  | Pending => Some (Pending, s)
  end.

Definition then_ (o : outcome) (s : session)
    (callback : value -> session -> completion (outcome * session)) : io (outcome * session) :=
  match then_result o s callback with
  | Some r => Ret r
  | None => Stuck
  end.

(** *** [this.power] *)

Definition power_currentMode (s : session) : io outcome :=
  let url := host s ++ "/state/device/power_mode" in
  sendRequest GET url VUndefined VUndefined.

(** *** [this.pairing] *)

Definition pairing_blocked : string :=
  "Failed to initiate the pairing process because a pairing request has already been initiated. Please wait for the pin to clear from the screen before initiating the pairing process again.".

(** [v || 'node-app-' + new Date().getTime()]: the clock is read only when
    [v] is falsy. *)
Definition or_node_app (v : value) : io value :=
  if truthy v then Ret v
  else Clock (fun t => Ret (VString ("node-app-" ++ string_of_Z t))).

Definition initiate_then (data : value) (s : session) : completion (outcome * session) :=
  success <~ (if truthy data
              then STATUS <~ get_prop data "STATUS" ;;
                   if truthy STATUS
                   then RESULT <~ get_prop STATUS "RESULT" ;;
                        Normal (is_string RESULT "SUCCESS")
                   else Normal false
              else Normal false) ;;
  if success : bool then
    ITEM <~ get_prop data "ITEM" ;;
    token <~ get_prop ITEM "PAIRING_REQ_TOKEN" ;;
    Normal (Fulfilled data, set_pairingRequestToken s token)
  else
    STATUS <~ get_prop data "STATUS" ;;
    RESULT <~ get_prop STATUS "RESULT" ;;
    if is_string RESULT "BLOCKED"
    then Normal (Rejected (VString pairing_blocked), s)
    else Normal (Rejected data, s).

Definition pairing_initiate (deviceName deviceId : value) (s : session)
    : io (outcome * session) :=
  name <- or_node_app deviceName ;;
  let s := set_deviceName s name in
  id <- or_node_app deviceId ;;
  let s := set_deviceId s id in
  let data := VObject [("DEVICE_NAME", _deviceName s); ("DEVICE_ID", _deviceId s)] in
  o <- sendRequest PUT (host s ++ "/pairing/start") VNull data ;;
  then_ o s initiate_then.

Definition pair_then (data : value) (s : session) : completion (outcome * session) :=
  success <~ (if truthy data
              then STATUS <~ get_prop data "STATUS" ;;
                   RESULT <~ get_prop STATUS "RESULT" ;;
                   Normal (is_string RESULT "SUCCESS")
              else Normal false) ;;
  if success : bool then
    ITEM <~ get_prop data "ITEM" ;;
    token <~ get_prop ITEM "AUTH_TOKEN" ;;
    Normal (Fulfilled data, set_authKey s token)
  else
    Normal (Rejected data, s).

Definition pairing_pair (pin : value) (s : session) : io (outcome * session) :=
  let data := VObject [("DEVICE_ID", _deviceId s);
                       ("CHALLENGE_TYPE", num 1);
                       ("RESPONSE_VALUE", pin);
                       ("PAIRING_REQ_TOKEN", _pairingRequestToken s)] in
  o <- sendRequest PUT (host s ++ "/pairing/pair") VNull data ;;
  then_ o s pair_then.


(** [cancel] throws when it is called; it returns no promise. *)
Definition pairing_cancel (ip : value) : completion value :=
  Throw (VError "not implemented").

(** *** [this.input] *)

Definition input_list (s : session) : io outcome :=
  sendRequest GET (host s ++ "/menu_native/dynamic/audio_settings/input") (_authKey s) VUndefined.

Definition input_current (s : session) : io outcome :=
  sendRequest GET (host s ++ "/menu_native/dynamic/audio_settings/input/current_input")
              (_authKey s) VUndefined.

(** What a callback of the two [set] methods decides: to reject the
    promise and return, or to send a modify request with this body. *)
Inductive step : Type :=
| RejectWith (e : value)
| ModifyWith (data : value).

(** The callback of [Promise.all(...).then] in [input.set]. *)
Definition input_set_then {JS : Engine} (name : string) (inputList currentInput : value) : completion step :=
  inputName <~ findInputByName name inputList ;;
  STATUS <~ get_prop inputList "STATUS" ;;
  RESULT <~ get_prop STATUS "RESULT" ;;
  failed <~ (if negb (is_string RESULT "SUCCESS") then Normal true
             else STATUS <~ get_prop currentInput "STATUS" ;;
                  RESULT <~ get_prop STATUS "RESULT" ;;
                  Normal (negb (is_string RESULT "SUCCESS"))) ;;
  if failed : bool then
    Normal (RejectWith (VObject [("list", inputList); ("current", currentInput)]))
  else if negb (truthy inputName) then
    Normal (RejectWith (VString ("Input: " ++ name ++ " not found")))
  else
    ITEMS <~ get_prop currentInput "ITEMS" ;;
    item <~ index ITEMS 0 ;;
    HASHVAL <~ get_prop item "HASHVAL" ;;
    Normal (ModifyWith (VObject [("REQUEST", VString "MODIFY");
                                 ("VALUE", inputName);
                                 ("HASHVAL", HASHVAL)])).

(** [input.set]: both reads are handed to the transport before either
    reply is looked at; [.then(resolve).catch(reject)] gives the promise
    the state of the modify request, and the outer [.catch(reject)] the
    exception of the callback. *)
Definition input_set {JS : Engine} (name : string) (s : session) : io outcome :=
  o1 <- input_list s ;;
  o2 <- input_current s ;;
  values <- Promise_all o1 o2 ;;
  match values with
  | AllFulfilled inputList currentInput =>
      match input_set_then name inputList currentInput with
      | Normal (RejectWith e) => Ret (Rejected e)
      | Normal (ModifyWith data) =>
          sendRequest PUT (host s ++ "/menu_native/dynamic/audio_settings/input/current_input")
                      (_authKey s) data
      | Throw e => Ret (Rejected e)
      | Unmodelled => Stuck
      end
  | FirstRejected e => Ret (Rejected e)
  | NeverSettled => Ret Pending
  end.

(** *** [this.control] *)

Definition control_keyCommand (codeset code action : value) (s : session) : io outcome :=
  let data := keyData codeset code action in
  sendRequest PUT (host s ++ "/key_command/") (_authKey s) data.

Definition control_volume_down := control_keyCommand (num 5) (num 0) VUndefined.
Definition control_volume_up := control_keyCommand (num 5) (num 1) VUndefined.

(** [new Promise((resolve) => { sendRequest(...).then(resolve) })]: the
    executor takes no [reject], and nothing handles a rejection of the
    request. *)
Definition resolve_only (o : outcome) : outcome :=
  match o with
  | Fulfilled v => Fulfilled v
  | Rejected _ | Pending => Pending
  end.

Definition control_volume_get (s : session) : io outcome :=
  o <- sendRequest GET (host s ++ "/menu_native/dynamic/audio_settings/audio/volume")
                   (_authKey s) VUndefined ;;
  Ret (resolve_only o).

(** A method of the instance that returns a promise. *)
Definition accessor : Type := session -> io outcome.

(** [this.settings.audio.get]. The constructor assigns [this.power],
    [this.pairing], [this.input] and [this.control] and nothing else, so
    [this.settings] is [undefined] on the instance it builds: [None]. *)
Definition this_settings_audio_get : option accessor := None.

(** The two checks at the head of the executor of [volume.set]. Neither is
    followed by a [return]. For a value that is not a number the first
    check has already rejected the promise, so whatever the comparisons of
    the second yield changes nothing. *)
Definition validate (value : value) : option outcome :=
  match value with
  | VNumber n =>
      if num_ltb n (Finite 0) || num_ltb (Finite 100) n
      then Some (Rejected (VString
             "value is out of range, please enter a number between 0 to 100 inclusive"))
      else None
  | _ => Some (Rejected (VString "value must be a number"))
  end.

(** [settings.ITEMS.find(i => i.CNAME === 'volume')]. *)
Fixpoint find_CNAME (cname : string) (items : list value) : completion value :=
  match items with
  | [] => Normal VUndefined
  | i :: rest =>
      CNAME <~ get_prop i "CNAME" ;;
      if is_string CNAME cname then Normal i else find_CNAME cname rest
  end.

(** The callback of [this.settings.audio.get().then] in [volume.set]. *)
Definition volume_set_then (value settings : value) : completion step :=
  ITEMS <~ get_prop settings "ITEMS" ;;
  volume <~ match ITEMS with
            | VArray items => find_CNAME "volume" items
            | _ => Throw VTypeError
            end ;;
  if negb (truthy volume) then
    Normal (RejectWith (VString "no volume setting found"))
  else
    HASHVAL <~ get_prop volume "HASHVAL" ;;
    VALUE <~ Math_round value ;;
    Normal (ModifyWith (VObject [("REQUEST", VString "MODIFY");
                                 ("HASHVAL", HASHVAL);
                                 ("VALUE", VALUE)])).

(** [volume.set] on an instance whose [this.settings.audio.get] is
    [audio_get]. Reading [audio] of an undefined [this.settings] throws in
    the executor, which rejects the promise unless a check has done so. *)
Definition control_volume_set_on (audio_get : option accessor) (value : value) (s : session)
    : io outcome :=
  let first := validate value in
  match audio_get with
  | None => Ret (settle first (Rejected VTypeError))
  | Some get =>
      o <- get s ;;
      match o with
      | Fulfilled settings =>
          match volume_set_then value settings with
          | Normal (RejectWith e) => Ret (settle first (Rejected e))
          | Normal (ModifyWith data) =>
              o' <- sendRequest PUT (host s ++ "/menu_native/dynamic/tv_settings/audio/volume")
                                (_authKey s) data ;;
              Ret (settle first o')
          | Throw e => Ret (settle first (Rejected e))
          | Unmodelled => Stuck
          end
      | Rejected e => Ret (settle first (Rejected e))
      | Pending => Ret (settle first Pending)
      end
  end.

Definition control_volume_set : value -> session -> io outcome :=
  control_volume_set_on this_settings_audio_get.

Definition control_volume_getMuteState (s : session) : io outcome :=
  o <- sendRequest GET (host s ++ "/menu_native/dynamic/tv_settings/audio/mute")
                   (_authKey s) VUndefined ;;
  Ret (resolve_only o).

Definition control_volume_unmute := control_keyCommand (num 5) (num 2) VUndefined.
Definition control_volume_mute := control_keyCommand (num 5) (num 3) VUndefined.
Definition control_volume_toggleMute := control_keyCommand (num 5) (num 4) VUndefined.
Definition control_input_cycle := control_keyCommand (num 7) (num 1) VUndefined.
Definition control_power_off := control_keyCommand (num 11) (num 0) VUndefined.
Definition control_power_on := control_keyCommand (num 11) (num 1) VUndefined.
Definition control_power_toggle := control_keyCommand (num 11) (num 2) VUndefined.
Definition control_media_seek_forward := control_keyCommand (num 2) (num 0) VUndefined.
Definition control_media_seek_back := control_keyCommand (num 2) (num 1) VUndefined.
Definition control_media_play := control_keyCommand (num 2) (num 3) VUndefined.
Definition control_media_pause := control_keyCommand (num 2) (num 2) VUndefined.
Definition control_media_cc := control_keyCommand (num 4) (num 4) VUndefined.
Definition control_menu := control_keyCommand (num 4) (num 8) VUndefined.
Definition control_info := control_keyCommand (num 4) (num 6) VUndefined.
Definition control_smartcast := control_keyCommand (num 4) (num 3) VUndefined.

(** The methods of an instance that return a promise, and what calling
    one does to the session. *)
Inductive operation : Type :=
| CurrentMode
| Initiate (deviceName deviceId : value)
| Pair (pin : value)
| InputList
| InputCurrent
| InputSet (name : string)
| KeyCommand (codeset code action : value)
| VolumeDown | VolumeUp | VolumeGet
| VolumeSet (value : value)
| GetMuteState
| Unmute | Mute | ToggleMute
| InputCycle
| PowerOff | PowerOn | PowerToggle
| SeekForward | SeekBack | Play | Pause | Cc
| Menu | Info | Smartcast.

Definition keep (s : session) (p : io outcome) : io (outcome * session) :=
  o <- p ;; Ret (o, s).

Definition perform {JS : Engine} (op : operation) (s : session) : io (outcome * session) :=
  match op with
  | CurrentMode => keep s (power_currentMode s)
  | Initiate deviceName deviceId => pairing_initiate deviceName deviceId s
  | Pair pin => pairing_pair pin s
  | InputList => keep s (input_list s)
  | InputCurrent => keep s (input_current s)
  | InputSet name => keep s (input_set name s)
  | KeyCommand codeset code action => keep s (control_keyCommand codeset code action s)
  | VolumeDown => keep s (control_volume_down s)
  | VolumeUp => keep s (control_volume_up s)
  | VolumeGet => keep s (control_volume_get s)
  | VolumeSet value => keep s (control_volume_set value s)
  | GetMuteState => keep s (control_volume_getMuteState s)
  | Unmute => keep s (control_volume_unmute s)
  | Mute => keep s (control_volume_mute s)
  | ToggleMute => keep s (control_volume_toggleMute s)
  | InputCycle => keep s (control_input_cycle s)
  | PowerOff => keep s (control_power_off s)
  | PowerOn => keep s (control_power_on s)
  | PowerToggle => keep s (control_power_toggle s)
  | SeekForward => keep s (control_media_seek_forward s)
  | SeekBack => keep s (control_media_seek_back s)
  | Play => keep s (control_media_play s)
  | Pause => keep s (control_media_pause s)
  | Cc => keep s (control_media_cc s)
  | Menu => keep s (control_menu s)
  | Info => keep s (control_info s)
  | Smartcast => keep s (control_smartcast s)
  end.

(* ================================================================== *)
(** ** 4. Running against a device *)
(* ================================================================== *)

(** One request as the transport saw it, with the state its promise ended
    in. *)
Record exchange : Type := {
  sent_method : method;
  sent : request;
  reply : outcome
}.

(** The outside of the program: a device (with the network in front of it)
    that answers each request from its own state, a clock, and the order in
    which two failures arrive. *)
Record world (D : Type) : Type := {
  respond : D -> method -> request -> outcome * D;
  clock : D -> Z * D;
  race : D -> bool * D
}.
Arguments respond {D} w d m r.
Arguments clock {D} w d.
Arguments race {D} w d.

(** The result ([None] for a stuck computation), the exchanges in the order
    the requests were sent, and the state the world is left in. *)
Fixpoint run {D A} (w : world D) (p : io A) (d : D) : option A * list exchange * D :=
  match p with
  | Ret a => (Some a, [], d)
  | Stuck => (None, [], d)
  | Clock k => let (t, d1) := clock w d in run w (k t) d1
  | Race k => let (b, d1) := race w d in run w (k b) d1
  | Http m r k =>
      let (o, d1) := respond w d m r in
      let '(a, exchanges, d2) := run w (k o) d1 in
      (a, {| sent_method := m; sent := r; reply := o |} :: exchanges, d2)
  end.

Definition result {D A} (x : option A * list exchange * D) : option A := fst (fst x).
Definition exchanges {D A} (x : option A * list exchange * D) : list exchange := snd (fst x).

(** A world that plays back a script: the replies, clock readings and race
    results are taken from the lists in order; a request past the end of
    the script is never answered. *)
Record script : Type := {
  replies : list outcome;
  times : list Z;
  races : list bool
}.

Definition scripted : world script := {|
  respond := fun d _ _ =>
    match replies d with
    | [] => (Pending, d)
    | o :: rest => (o, {| replies := rest; times := times d; races := races d |})
    end;
  clock := fun d =>
    match times d with
    | [] => (0%Z, d)
    | t :: rest => (t, {| replies := replies d; times := rest; races := races d |})
    end;
  race := fun d =>
    match races d with
    | [] => (true, d)
    | b :: rest => (b, {| replies := replies d; times := times d; races := rest |})
    end
|}.

Definition answers (l : list outcome) : script :=
  {| replies := l; times := []; races := [] |}.

(* ================================================================== *)
(** ** 5. Vocabulary of the properties *)
(* ================================================================== *)

(** [data.STATUS.RESULT]. *)
Definition status_result (data : value) : completion value :=
  STATUS <~ get_prop data "STATUS" ;;
  get_prop STATUS "RESULT".

(** [data.STATUS.RESULT] reads as the string [r]. *)
Definition status_is (data : value) (r : string) : Prop :=
  status_result data = Normal (VString r).


(** Every request a computation can send, whatever it is answered,
    satisfies [P]. *)
Inductive always_sends (P : method -> request -> Prop) {A : Type} : io A -> Prop :=
| sends_Ret : forall a, always_sends P (Ret a)
| sends_Stuck : always_sends P Stuck
| sends_Clock : forall k, (forall t, always_sends P (k t)) -> always_sends P (Clock k)
| sends_Race : forall k, (forall b, always_sends P (k b)) -> always_sends P (Race k)
| sends_Http : forall m r k,
    P m r -> (forall o, always_sends P (k o)) -> always_sends P (Http m r k).

(** The operations whose requests are sent with the stored token. *)
Definition authenticated (op : operation) : bool :=
  match op with
  | CurrentMode | Initiate _ _ | Pair _ => false
  | _ => true
  end.

(** The paths of the device's interface that the client uses. *)
Definition paths : list string :=
  [ "/state/device/power_mode";
    "/pairing/start";
    "/pairing/pair";
    "/menu_native/dynamic/audio_settings/input";
    "/menu_native/dynamic/audio_settings/input/current_input";
    "/key_command/";
    "/menu_native/dynamic/audio_settings/audio/volume";
    "/menu_native/dynamic/tv_settings/audio/volume";
    "/menu_native/dynamic/tv_settings/audio/mute" ].

(** The request carries [token] in a header named AUTH, and nothing else
    in its headers. *)
Definition carries_AUTH (token : value) (r : request) : Prop :=
  headers r = Some [("AUTH", token)].

(** How a request of session [s] goes on the wire: with the token of the
    session in the AUTH header when [auth] is set and with no header
    otherwise, to the host of the session followed by one of the fixed
    paths, so that the token is no part of the URL. *)
Definition on_the_wire (s : session) (auth : bool) (m : method) (r : request) : Prop :=
  (if auth then carries_AUTH (_authKey s) r else headers r = None) /\
  exists path, In path paths /\ url r = host s ++ path.

(** The lookup of [input.set] in the words of the specification: an item
    matches when the requested name equals, letter case aside, its internal
    name, or its display name; a match on the internal name of any item
    comes before a match on a display name; the answer is the internal name
    of the matched item. *)
Definition internal_name (item : value) : value :=
  match get_prop item "NAME" with
  | Normal v => v
  | _ => VUndefined
  end.

Definition display_name (item : value) : value :=
  match get_prop item "VALUE" with
  | Normal VALUE =>
      match get_prop VALUE "NAME" with
      | Normal v => v
      | _ => VUndefined
      end
  | _ => VUndefined
  end.

Definition same_name {JS : Engine} (name : string) (v : value) : bool :=
  match v with
  | VString n => lower n =? lower name
  | _ => false
  end.

Definition resolve_input {JS : Engine} (name : string) (items : list value) : option value :=
  match find (fun item => same_name name (internal_name item)) items with
  | Some item => Some (internal_name item)
  | None =>
      match find (fun item => same_name name (display_name item)) items with
      | Some item => Some (internal_name item)
      | None => None
      end
  end.

(** A number outside [0, 100]. *)
Definition out_of_range (n : number) : Prop :=
  match n with
  | Finite q => (q < 0)%Q \/ (100 < q)%Q
  | Infinity _ => True
  | NaN => False
  end.

Definition not_a_number_message : string := "value must be a number".
Definition out_of_range_message : string :=
  "value is out of range, please enter a number between 0 to 100 inclusive".

(** An item of the input list as the device sends it: its internal name
    and its display name are strings. *)
Definition well_formed_item (item : value) : Prop :=
  (exists n, internal_name item = VString n) /\ (exists u, display_name item = VString u).

(** The three requests of [input.set]. *)
Definition list_request (s : session) : request :=
  {| url := host s ++ "/menu_native/dynamic/audio_settings/input";
     json := true;
     rejectUnauthorized := false;
     body := VUndefined;
     headers := if truthy (_authKey s) then Some [("AUTH", _authKey s)] else None |}.

Definition current_request (s : session) : request :=
  {| url := host s ++ "/menu_native/dynamic/audio_settings/input/current_input";
     json := true;
     rejectUnauthorized := false;
     body := VUndefined;
     headers := if truthy (_authKey s) then Some [("AUTH", _authKey s)] else None |}.

Definition modify_request (s : session) (data : value) : request :=
  {| url := host s ++ "/menu_native/dynamic/audio_settings/input/current_input";
     json := true;
     rejectUnauthorized := false;
     body := data;
     headers := if truthy (_authKey s) then Some [("AUTH", _authKey s)] else None |}.

(** The commands that are a fixed key: every method of [this.control]
    that only calls [keyCommand] with two literals. *)
Definition named_command (op : operation) : bool :=
  match op with
  | VolumeDown | VolumeUp | Unmute | Mute | ToggleMute | InputCycle
  | PowerOff | PowerOn | PowerToggle | SeekForward | SeekBack | Play | Pause | Cc
  | Menu | Info | Smartcast => true
  | _ => false
  end.

(** A request without headers, to the host of the session followed by one
    of the fixed paths. *)
Definition bare (s : session) (m : method) (r : request) : Prop :=
  headers r = None /\ exists path, In path paths /\ url r = host s ++ path.

(** Responses used in the examples. *)
Definition with_status (r : string) (fields : list (string * value)) : value :=
  VObject (("STATUS", VObject [("RESULT", VString r)]) :: fields).

Definition input_item (internal display : string) : value :=
  VObject [("HASHVAL", num 302); ("CNAME", VString internal); ("NAME", VString internal);
           ("TYPE", VString "T_DEVICE_V1");
           ("VALUE", VObject [("NAME", VString display); ("METADATA", VString "")])].

Definition input_list_response : value :=
  with_status "SUCCESS"
    [("ITEMS", VArray [input_item "cast" "CAST"; input_item "hdmi1" "HDMI-1";
                       input_item "hdmi2" "Console"])].

Definition current_input_response : value :=
  with_status "SUCCESS"
    [("ITEMS", VArray [VObject [("HASHVAL", num 1384176379);
                                ("CNAME", VString "current_input");
                                ("VALUE", VString "CAST")]])].

Definition tv : session := SMARTCAST "192.168.0.101" (VString "Zb8x2yqjan").

(* ================================================================== *)
(** ** 6. Running: general facts *)
(* ================================================================== *)

Lemma run_bind {D A B} (w : world D) (p : io A) (f : A -> io B) (d : D) :
  run w (bind p f) d =
    match run w p d with
    | (Some a, tr, d1) =>
        let '(b, tr', d2) := run w (f a) d1 in (b, (tr ++ tr')%list, d2)
    | (None, tr, d1) => (None, tr, d1)
    end.
Proof.
  revert d. induction p as [a | k IH | m r k IH | k IH | ]; intros d; simpl.
  - destruct (run w (f a) d) as [[b tr'] d2]. reflexivity.
  - destruct (clock w d) as [t d1]. apply IH.
  - destruct (respond w d m r) as [o d1]. rewrite IH.
    destruct (run w (k o) d1) as [[[a | ] tr] d2]; [ | reflexivity ].
    destruct (run w (f a) d2) as [[b tr'] d3]. reflexivity.
  - destruct (race w d) as [b d1]. apply IH.
  - reflexivity.
Qed.

Lemma always_sends_run {D A} (P : method -> request -> Prop) (w : world D) (p : io A) :
  always_sends P p ->
  forall d, Forall (fun ex => P (sent_method ex) (sent ex)) (exchanges (run w p d)).
Proof.
  induction 1 as [a | | k _ IH | k _ IH | m r k HP _ IH]; intros d; unfold exchanges in *; simpl.
  - constructor.
  - constructor.
  - destruct (clock w d) as [t d1]. apply IH.
  - destruct (race w d) as [b d1]. apply IH.
  - destruct (respond w d m r) as [o d1]. specialize (IH o d1).
    destruct (run w (k o) d1) as [[a tr] d2]. simpl in *.
    constructor; [ exact HP | exact IH ].
Qed.

Lemma always_sends_bind {A B} (P : method -> request -> Prop) (p : io A) (f : A -> io B) :
  always_sends P p -> (forall a, always_sends P (f a)) -> always_sends P (bind p f).
Proof.
  induction 1; intros Hf; simpl; try (constructor; auto).
  apply Hf.
Qed.

(* ================================================================== *)
(** ** 7. Key commands *)
(* ================================================================== *)





(* ================================================================== *)
(** ** 8. The pairing handshake *)
(* ================================================================== *)

Lemma run_then_ {D} (w : world D) (d : D) (o : outcome) (s : session)
    (callback : value -> session -> completion (outcome * session)) :
  run w (then_ o s callback) d = (then_result o s callback, [], d).
Proof.
  unfold then_. destruct (then_result o s callback); reflexivity.
Qed.

(** The callback of [initiate], by what [data.STATUS.RESULT] reads as. *)
Lemma initiate_then_eq (data : value) (s : session) :
  initiate_then data s =
    match status_result data with
    | Normal RESULT =>
        if is_string RESULT "SUCCESS" then
          ITEM <~ get_prop data "ITEM" ;;
          token <~ get_prop ITEM "PAIRING_REQ_TOKEN" ;;
          Normal (Fulfilled data, set_pairingRequestToken s token)
        else if is_string RESULT "BLOCKED" then
          Normal (Rejected (VString pairing_blocked), s)
        else Normal (Rejected data, s)
    | Throw e => Throw e
    | Unmodelled => Unmodelled
    end.
Proof.
  unfold initiate_then, status_result.
  destruct data as [ | | [ | ] | [ | | q] | str | items | fields | msg | ]; simpl;
    try reflexivity;
    try (match goal with |- context [if negb ?b then _ else _] => destruct b end;
         reflexivity).
  destruct (lookup "STATUS" fields) as [ | | [ | ] | [ | | q] | str | items | st | msg | ];
    simpl; try reflexivity;
    match goal with |- context [if ?b then _ else _] => destruct b end;
    reflexivity.
Qed.

(** The callback of [pair]. *)
Lemma pair_then_eq (data : value) (s : session) :
  pair_then data s =
    if truthy data then
      match status_result data with
      | Normal RESULT =>
          if is_string RESULT "SUCCESS" then
            ITEM <~ get_prop data "ITEM" ;;
            token <~ get_prop ITEM "AUTH_TOKEN" ;;
            Normal (Fulfilled data, set_authKey s token)
          else Normal (Rejected data, s)
      | Throw e => Throw e
      | Unmodelled => Unmodelled
      end
    else Normal (Rejected data, s).
Proof.
  unfold pair_then, status_result.
  destruct (truthy data); [ | reflexivity ].
  destruct (get_prop data "STATUS") as [STATUS | e | ]; simpl; try reflexivity.
  destruct (get_prop STATUS "RESULT") as [RESULT | e | ]; simpl; reflexivity.
Qed.

Lemma get_prop_modelled (v : value) (k : string) : get_prop v k <> Unmodelled.
Proof. destruct v; discriminate. Qed.

Lemma status_result_modelled (data : value) : status_result data <> Unmodelled.
Proof.
  unfold status_result.
  destruct (get_prop data "STATUS") as [STATUS | e | ] eqn:E; simpl.
  - apply get_prop_modelled.
  - discriminate.
  - destruct (get_prop_modelled _ _ E).
Qed.

(** A successful response is an object. *)
Lemma status_is_object (data : value) (r : string) :
  status_is data r -> exists fields, data = VObject fields.
Proof.
  unfold status_is, status_result.
  destruct data; simpl; try discriminate. eauto.
Qed.

Lemma status_is_truthy (data : value) (r : string) : status_is data r -> truthy data = true.
Proof. intros H. destruct (status_is_object _ _ H) as [fields ->]. reflexivity. Qed.

(** What [then] makes of the callback of [initiate]: the promise is
    settled, and the session differs at most in the pairing-request
    token. *)
Lemma initiate_then_result (o : outcome) (s : session) :
  exists o' s',
    then_result o s initiate_then = Some (o', s') /\
    host s' = host s /\ _authKey s' = _authKey s /\
    _deviceId s' = _deviceId s /\ _deviceName s' = _deviceName s.
Proof.
  destruct o as [data | e | ]; simpl; [ | eauto 10 | eauto 10 ].
  rewrite initiate_then_eq.
  destruct (status_result data) as [RESULT | e | ] eqn:E; [ | eauto 10 | ].
  - destruct (is_string RESULT "SUCCESS").
    + destruct (get_prop data "ITEM") as [ITEM | e | ] eqn:E1; simpl;
        [ | eauto 10 | destruct (get_prop_modelled _ _ E1) ].
      destruct (get_prop ITEM "PAIRING_REQ_TOKEN") as [token | e | ] eqn:E2; simpl;
        [ | eauto 10 | destruct (get_prop_modelled _ _ E2) ].
      eexists _, _. split; [ reflexivity | simpl; auto ].
    + destruct (is_string RESULT "BLOCKED"); eauto 10.
  - destruct (status_result_modelled _ E).
Qed.

(** One run of [initiate]: the clock is read for each argument left out,
    the session takes the new name and id, one PUT is sent to
    [/pairing/start] without headers, and its reply goes to the callback. *)
Lemma run_initiate {D} (w : world D) (d : D) (s : session) (deviceName deviceId : value) :
  exists t1 t2 o d',
    let name := if truthy deviceName then deviceName
                else VString ("node-app-" ++ string_of_Z t1) in
    let id := if truthy deviceId then deviceId
              else VString ("node-app-" ++ string_of_Z t2) in
    let s1 := set_deviceId (set_deviceName s name) id in
    run w (pairing_initiate deviceName deviceId s) d =
      (then_result o s1 initiate_then,
       [{| sent_method := PUT;
           sent := {| url := host s ++ "/pairing/start";
                      json := true;
                      rejectUnauthorized := false;
                      body := VObject [("DEVICE_NAME", name); ("DEVICE_ID", id)];
                      headers := None |};
           reply := o |}],
       d').
Proof.
  unfold pairing_initiate, or_node_app, sendRequest.
  destruct (truthy deviceName) eqn:En; destruct (truthy deviceId) eqn:Ei; simpl.
  - destruct (respond w d PUT _) as [o d1] eqn:E. rewrite run_then_.
    exists 0%Z, 0%Z, o, d1. reflexivity.
  - destruct (clock w d) as [t d0]. simpl.
    destruct (respond w d0 PUT _) as [o d1] eqn:E. rewrite run_then_.
    exists 0%Z, t, o, d1. reflexivity.
  - destruct (clock w d) as [t d0]. simpl.
    destruct (respond w d0 PUT _) as [o d1] eqn:E. rewrite run_then_.
    exists t, 0%Z, o, d1. reflexivity.
  - destruct (clock w d) as [t d0]. simpl.
    destruct (clock w d0) as [t' d0']. simpl.
    destruct (respond w d0' PUT _) as [o d1] eqn:E. rewrite run_then_.
    exists t, t', o, d1. reflexivity.
Qed.

(** One run of [pair]. *)
Lemma run_pair {D} (w : world D) (d : D) (s : session) (pin : value) :
  exists o d',
    run w (pairing_pair pin s) d =
      (then_result o s pair_then,
       [{| sent_method := PUT;
           sent := {| url := host s ++ "/pairing/pair";
                      json := true;
                      rejectUnauthorized := false;
                      body := VObject [("DEVICE_ID", _deviceId s);
                                       ("CHALLENGE_TYPE", num 1);
                                       ("RESPONSE_VALUE", pin);
                                       ("PAIRING_REQ_TOKEN", _pairingRequestToken s)];
                      headers := None |};
           reply := o |}],
       d').
Proof.
  unfold pairing_pair, sendRequest. simpl.
  destruct (respond w d PUT _) as [o d1] eqn:E. rewrite run_then_.
  exists o, d1. reflexivity.
Qed.

(** One run of [initiate], with the clock: the clock is read once for each
    argument that is falsy, for the name first, and the request is handed
    to the transport after these readings. *)
Lemma run_initiate_clock {D} (w : world D) (d : D) (s : session)
    (deviceName deviceId : value) :
  let t1 := fst (clock w d) in
  let d1 := if truthy deviceName then d else snd (clock w d) in
  let t2 := fst (clock w d1) in
  let d2 := if truthy deviceId then d1 else snd (clock w d1) in
  let name := if truthy deviceName then deviceName
              else VString ("node-app-" ++ string_of_Z t1) in
  let id := if truthy deviceId then deviceId
            else VString ("node-app-" ++ string_of_Z t2) in
  let s1 := set_deviceId (set_deviceName s name) id in
  let req := {| url := host s ++ "/pairing/start";
                json := true;
                rejectUnauthorized := false;
                body := VObject [("DEVICE_NAME", name); ("DEVICE_ID", id)];
                headers := None |} in
  run w (pairing_initiate deviceName deviceId s) d =
    (then_result (fst (respond w d2 PUT req)) s1 initiate_then,
     [{| sent_method := PUT; sent := req; reply := fst (respond w d2 PUT req) |}],
     snd (respond w d2 PUT req)).
Proof.
  cbv zeta. unfold pairing_initiate, or_node_app, sendRequest.
  destruct (truthy deviceName); destruct (truthy deviceId); simpl;
    repeat match goal with
           | |- context [clock w ?x] =>
               let t := fresh "t" in let d0 := fresh "d" in
               destruct (clock w x) as [t d0]; simpl
           end;
    match goal with
    | |- context [respond w ?x PUT ?r] => destruct (respond w x PUT r) as [o d']
    end;
    rewrite run_then_; reflexivity.
Qed.

(** C10. Every call to [pairing.initiate] overwrites the stored device
    name and device id before the request is sent, with the caller's
    argument or, for an argument left out (or falsy), with ['node-app-']
    followed by the reading of the clock taken at that moment: the clock is
    read for the name first, then for the id, and the request is handed to
    the transport after that. The request carries the new values, and the
    session holds them whatever state the promise ends in, so also when
    the request fails. A later [pairing.pair] sends the DEVICE_ID of that
    call. *)
Theorem initiate_overwrites_device_identity :
  forall D (w : world D) (d : D) (s : session) (deviceName deviceId : value),
    let t1 := fst (clock w d) in
    let d1 := if truthy deviceName then d else snd (clock w d) in
    let t2 := fst (clock w d1) in
    let d2 := if truthy deviceId then d1 else snd (clock w d1) in
    let name := if truthy deviceName then deviceName
                else VString ("node-app-" ++ string_of_Z t1) in
    let id := if truthy deviceId then deviceId
              else VString ("node-app-" ++ string_of_Z t2) in
    exists o s' ex d',
      run w (pairing_initiate deviceName deviceId s) d = (Some (o, s'), [ex], d') /\
      sent_method ex = PUT /\
      respond w d2 PUT (sent ex) = (reply ex, d') /\
      body (sent ex) = VObject [("DEVICE_NAME", name); ("DEVICE_ID", id)] /\
      _deviceName s' = name /\
      _deviceId s' = id /\
      (forall e, reply ex = Rejected e -> o = Rejected e) /\
      (reply ex = Pending -> o = Pending) /\
      forall D2 (w2 : world D2) (d2 : D2) (pin : value),
      exists r2 ex2 d2',
        run w2 (pairing_pair pin s') d2 = (r2, [ex2], d2') /\
        get_prop (body (sent ex2)) "DEVICE_ID" = Normal id.
Proof.
  intros D w d s deviceName deviceId t1 d1 t2 d2 name id.
  pose proof (run_initiate_clock w d s deviceName deviceId) as Hrun.
  cbv zeta in Hrun. fold t1 d1 t2 d2 name id in Hrun.
  set (req := {| url := host s ++ "/pairing/start";
                 json := true;
                 rejectUnauthorized := false;
                 body := VObject [("DEVICE_NAME", name); ("DEVICE_ID", id)];
                 headers := None |}) in *.
  destruct (respond w d2 PUT req) as [o0 d'] eqn:Er. simpl in Hrun.
  destruct (initiate_then_result o0 (set_deviceId (set_deviceName s name) id))
    as (o' & s' & Hthen & _ & _ & Hid & Hname).
  rewrite Hthen in Hrun.
  exists o', s', {| sent_method := PUT; sent := req; reply := o0 |}, d'.
  split; [ exact Hrun | ].
  split; [ reflexivity | ].
  split; [ exact Er | ].
  split; [ reflexivity | ].
  split; [ rewrite Hname; reflexivity | ].
  split; [ rewrite Hid; reflexivity | ].
  split; [ | split ].
  - intros e He. simpl in He. subst o0. simpl in Hthen.
    injection Hthen as <- _. reflexivity.
  - intros He. simpl in He. subst o0. simpl in Hthen.
    injection Hthen as <- _. reflexivity.
  - intros D2 w2 d3 pin.
    destruct (run_pair w2 d3 s' pin) as (o2 & d3' & Hpair).
    eexists _, _, d3'. split; [ exact Hpair | ].
    simpl. rewrite Hid. reflexivity.
Qed.

Lemma initiate_overwrites_device_identity_witness :
  let d := {| replies := [Rejected (VError "socket hang up")];
              times := [1700000000123%Z; 1700000000124%Z];
              races := [] |} in
  exists o s' ex d',
    run scripted (pairing_initiate VUndefined VUndefined tv) d = (Some (o, s'), [ex], d') /\
    body (sent ex) = VObject [("DEVICE_NAME", VString "node-app-1700000000123");
                              ("DEVICE_ID", VString "node-app-1700000000124")] /\
    _deviceName s' = VString "node-app-1700000000123" /\
    _deviceId s' = VString "node-app-1700000000124" /\
    reply ex = Rejected (VError "socket hang up") /\
    o = Rejected (VError "socket hang up").
Proof.
  cbv zeta.
  destruct (initiate_overwrites_device_identity script scripted
              {| replies := [Rejected (VError "socket hang up")];
                 times := [1700000000123%Z; 1700000000124%Z];
                 races := [] |} tv VUndefined VUndefined)
    as (o & s' & ex & d' & Hrun & _ & Hreply & Hbody & Hname & Hid & Hfail & _).
  exists o, s', ex, d'.
  split; [ exact Hrun | ]. split; [ exact Hbody | ].
  split; [ exact Hname | ]. split; [ exact Hid | ].
  assert (Hr : reply ex = Rejected (VError "socket hang up")).
  { simpl in Hreply. injection Hreply as <- _. reflexivity. }
  split; [ exact Hr | exact (Hfail _ Hr) ].
Defined.

(** A first [initiate] succeeds, a second one fails on the network: [pair]
    then sends the device id of the second call, with the token of the
    first. *)
Example pair_sends_id_of_latest_initiate :
  let started := with_status "SUCCESS"
                   [("ITEM", VObject [("PAIRING_REQ_TOKEN", num 612345);
                                      ("CHALLENGE_TYPE", num 1)])] in
  let fresh := SMARTCAST "192.168.0.101" VUndefined in
  let s1 := match result (run scripted
                            (pairing_initiate (VString "remote") (VString "id-1") fresh)
                            (answers [Fulfilled started])) with
            | Some (_, s) => s
            | None => fresh
            end in
  let x2 := run scripted (pairing_initiate (VString "remote") (VString "id-2") s1)
                (answers [Rejected (VError "socket hang up")]) in
  let s2 := match result x2 with
            | Some (_, s) => s
            | None => s1
            end in
  fst (fst x2) = Some (Rejected (VError "socket hang up"), s2) /\
  map (fun ex => body (sent ex))
      (exchanges (run scripted (pairing_pair (VString "1234") s2) (answers []))) =
    [VObject [("DEVICE_ID", VString "id-2");
              ("CHALLENGE_TYPE", num 1);
              ("RESPONSE_VALUE", VString "1234");
              ("PAIRING_REQ_TOKEN", num 612345)]].
Proof. split; reflexivity. Qed.

Lemma only_exchange (ex ex0 : exchange) : In ex [ex0] -> ex = ex0.
Proof. intros [H | []]. symmetry. exact H. Qed.

(** C7. When the response to [pairing.initiate] has
    [STATUS.RESULT === 'BLOCKED'], the promise is rejected with the
    message that a pairing request has already been initiated, which is
    not the raw response that other failures are rejected with, and the
    stored pairing-request token (and the auth token) is left as it
    was. *)
Theorem initiate_blocked_is_distinct :
  forall D (w : world D) (d : D) (s : session) (deviceName deviceId : value)
         (res : option (outcome * session)) (tr : list exchange) (d' : D),
    run w (pairing_initiate deviceName deviceId s) d = (res, tr, d') ->
    forall (ex : exchange) (data : value),
      In ex tr ->
      reply ex = Fulfilled data ->
      status_is data "BLOCKED" ->
      exists s',
        res = Some (Rejected (VString pairing_blocked), s') /\
        VString pairing_blocked <> data /\
        _pairingRequestToken s' = _pairingRequestToken s /\
        _authKey s' = _authKey s.
Proof.
  intros D w d s deviceName deviceId res tr d' Hrun ex data Hin Hreply Hblocked.
  destruct (run_initiate w d s deviceName deviceId) as (t1 & t2 & o & d1 & H).
  cbv zeta in H. rewrite H in Hrun. injection Hrun as Hres Htr _. subst tr.
  apply only_exchange in Hin. subst ex. simpl in Hreply. subst o.
  simpl in Hres. rewrite initiate_then_eq in Hres.
  unfold status_is in Hblocked. rewrite Hblocked in Hres. simpl in Hres.
  eexists. split; [ symmetry; exact Hres | ].
  split; [ | split; reflexivity ].
  destruct (status_is_object data "BLOCKED" Hblocked) as [fields ->]. discriminate.
Qed.

Lemma initiate_blocked_is_distinct_witness :
  let data := with_status "BLOCKED" [] in
  let x := run scripted (pairing_initiate (VString "remote") (VString "remote-1") tv)
               (answers [Fulfilled data]) in
  status_is data "BLOCKED" /\
  exists s',
    result x = Some (Rejected (VString pairing_blocked), s') /\
    VString pairing_blocked <> data /\
    _pairingRequestToken s' = _pairingRequestToken tv /\
    _authKey s' = _authKey tv.
Proof.
  cbv zeta. split; [ reflexivity | ].
  exact (initiate_blocked_is_distinct script scripted
           (answers [Fulfilled (with_status "BLOCKED" [])]) tv
           (VString "remote") (VString "remote-1") _ _ _ eq_refl
           _ (with_status "BLOCKED" []) (or_introl eq_refl) eq_refl eq_refl).
Defined.

(** X8. The other failures of [initiate] (a readable [STATUS.RESULT] that is
    neither SUCCESS nor BLOCKED) are rejected with the raw response, and
    the stored pairing-request token is kept. *)
Lemma initiate_failure_is_raw :
  forall D (w : world D) (d : D) (s : session) (deviceName deviceId : value)
         (res : option (outcome * session)) (tr : list exchange) (d' : D),
    run w (pairing_initiate deviceName deviceId s) d = (res, tr, d') ->
    forall (ex : exchange) (data RESULT : value),
      In ex tr ->
      reply ex = Fulfilled data ->
      status_result data = Normal RESULT ->
      is_string RESULT "SUCCESS" = false ->
      is_string RESULT "BLOCKED" = false ->
      exists s',
        res = Some (Rejected data, s') /\
        _pairingRequestToken s' = _pairingRequestToken s.
Proof.
  intros D w d s deviceName deviceId res tr d' Hrun ex data RESULT Hin Hreply HR Hs Hb.
  destruct (run_initiate w d s deviceName deviceId) as (t1 & t2 & o & d1 & H).
  cbv zeta in H. rewrite H in Hrun. injection Hrun as Hres Htr _. subst tr.
  apply only_exchange in Hin. subst ex. simpl in Hreply. subst o.
  simpl in Hres. rewrite initiate_then_eq, HR, Hs, Hb in Hres.
  eexists. split; [ symmetry; exact Hres | reflexivity ].
Qed.







(* ================================================================== *)
(** ** 9. Volume *)
(* ================================================================== *)

Lemma num_ltb_Finite (p q : Q) : num_ltb (Finite p) (Finite q) = true <-> (p < q)%Q.
Proof.
  simpl. rewrite negb_true_iff. split.
  - intros H. apply Qnot_le_lt. intros Hle.
    apply Qle_bool_iff in Hle. congruence.
  - intros H. destruct (Qle_bool q p) eqn:E; [ | reflexivity ].
    apply Qle_bool_iff in E. exfalso. exact (Qlt_not_le _ _ H E).
Qed.

Lemma validate_out_of_range (n : number) :
  out_of_range n -> validate (VNumber n) = Some (Rejected (VString out_of_range_message)).
Proof.
  intros H. unfold validate.
  assert (Hb : num_ltb n (Finite 0) || num_ltb (Finite 100) n = true).
  { destruct n as [ | [ | ] | q]; try reflexivity; try contradiction.
    apply orb_true_iff. destruct H as [H | H]; [ left | right ];
      apply num_ltb_Finite; exact H. }
  rewrite Hb. reflexivity.
Qed.

Lemma validate_not_a_number (v : value) :
  is_number v = false -> validate v = Some (Rejected (VString not_a_number_message)).
Proof. destruct v; try reflexivity. discriminate. Qed.

Lemma validate_in_range (q : Q) :
  (0 <= q)%Q -> (q <= 100)%Q -> validate (VNumber (Finite q)) = None.
Proof.
  intros H0 H100. unfold validate.
  assert (Hb : num_ltb (Finite q) (Finite 0) || num_ltb (Finite 100) (Finite q) = false).
  { apply orb_false_iff. split.
    - destruct (num_ltb (Finite q) (Finite 0)) eqn:E; [ | reflexivity ].
      apply num_ltb_Finite in E. exfalso. exact (Qlt_not_le _ _ E H0).
    - destruct (num_ltb (Finite 100) (Finite q)) eqn:E; [ | reflexivity ].
      apply num_ltb_Finite in E. exfalso. exact (Qlt_not_le _ _ E H100). }
  rewrite Hb. reflexivity.
Qed.

(** On the instance the constructor builds, [volume.set] sends nothing:
    the executor throws at [this.settings.audio], whatever the value. *)
Lemma volume_set_run {D} (w : world D) (d : D) (s : session) (v : value) :
  run w (control_volume_set v s) d = (Some (settle (validate v) (Rejected VTypeError)), [], d).
Proof. reflexivity. Qed.

(** C6. [control.volume.set(v)] with [v] not a number, or a number below 0
    or above 100, is rejected with the matching validation message and no
    request is sent. *)
Theorem volume_set_invalid_rejects_without_request :
  forall D (w : world D) (d : D) (s : session) (v : value),
    (is_number v = false ->
     run w (control_volume_set v s) d =
       (Some (Rejected (VString not_a_number_message)), [], d)) /\
    (forall n, v = VNumber n -> out_of_range n ->
     run w (control_volume_set v s) d =
       (Some (Rejected (VString out_of_range_message)), [], d)).
Proof.
  intros D w d s v. split.
  - intros H. rewrite volume_set_run, (validate_not_a_number _ H). reflexivity.
  - intros n -> H. rewrite volume_set_run, (validate_out_of_range _ H). reflexivity.
Qed.

Lemma volume_set_invalid_rejects_without_request_witness :
  let d := answers [Fulfilled (with_status "SUCCESS" [])] in
  (is_number (VString "loud") = false /\
   run scripted (control_volume_set (VString "loud") tv) d =
     (Some (Rejected (VString not_a_number_message)), [], d)) /\
  (out_of_range (Finite 150) /\
   run scripted (control_volume_set (num 150) tv) d =
     (Some (Rejected (VString out_of_range_message)), [], d)) /\
  (out_of_range (Finite (-1)) /\
   run scripted (control_volume_set (num (-1)) tv) d =
     (Some (Rejected (VString out_of_range_message)), [], d)).
Proof.
  cbv zeta.
  assert (H150 : out_of_range (Finite 150)) by (right; reflexivity).
  assert (Hm1 : out_of_range (Finite (-1))) by (left; reflexivity).
  split; [ | split ].
  - split; [ reflexivity | ].
    exact (proj1 (volume_set_invalid_rejects_without_request script scripted
                    (answers [Fulfilled (with_status "SUCCESS" [])]) tv (VString "loud"))
                 eq_refl).
  - split; [ exact H150 | ].
    exact (proj2 (volume_set_invalid_rejects_without_request script scripted
                    (answers [Fulfilled (with_status "SUCCESS" [])]) tv (num 150))
                 (Finite 150) eq_refl H150).
  - split; [ exact Hm1 | ].
    exact (proj2 (volume_set_invalid_rejects_without_request script scripted
                    (answers [Fulfilled (with_status "SUCCESS" [])]) tv (num (-1)))
                 (Finite (-1)) eq_refl Hm1).
Defined.

(** C1 (the code departs from it). For every number [q] with
    [0 <= q <= 100], [control.volume.set(q)] on an instance built by the
    constructor reads nothing and modifies nothing: reading [audio] of the
    undefined [this.settings] throws, the promise is rejected with that
    TypeError and no request is sent. *)
Theorem volume_set_in_range_throws_before_any_request :
  forall D (w : world D) (d : D) (s : session) (q : Q),
    (0 <= q)%Q -> (q <= 100)%Q ->
    run w (control_volume_set (VNumber (Finite q)) s) d = (Some (Rejected VTypeError), [], d).
Proof.
  intros D w d s q H0 H100.
  rewrite volume_set_run, (validate_in_range _ H0 H100). reflexivity.
Qed.

Lemma volume_set_in_range_throws_before_any_request_witness :
  let d := answers [Fulfilled (with_status "SUCCESS" [])] in
  (0 <= 42)%Q /\ (42 <= 100)%Q /\
  run scripted (control_volume_set (num 42) tv) d = (Some (Rejected VTypeError), [], d).
Proof.
  cbv zeta.
  assert (H0 : (0 <= 42)%Q) by discriminate.
  assert (H100 : (42 <= 100)%Q) by discriminate.
  split; [ exact H0 | ]. split; [ exact H100 | ].
  exact (volume_set_in_range_throws_before_any_request script scripted
           (answers [Fulfilled (with_status "SUCCESS" [])]) tv 42 H0 H100).
Defined.

(** What the body of [volume.set] does on an instance on which a
    [settings.audio.get] accessor is defined: for a number in range, once
    the accessor's promise is fulfilled with settings holding a volume
    item, one PUT is sent with REQUEST 'MODIFY', the HASHVAL of that item
    and the rounded value, and the promise takes the state of that
    request. *)
Lemma volume_set_on_reads_then_modifies (D : Type) (w : world D) (d : D) (s : session)
    (get : accessor) (q : Q) (settings : value) (tr : list exchange) (d1 : D)
    (items : list value) (volume HASHVAL : value) :
  (0 <= q)%Q -> (q <= 100)%Q ->
  run w (get s) d = (Some (Fulfilled settings), tr, d1) ->
  get_prop settings "ITEMS" = Normal (VArray items) ->
  find_CNAME "volume" items = Normal volume ->
  truthy volume = true ->
  get_prop volume "HASHVAL" = Normal HASHVAL ->
  exists o d2,
    run w (control_volume_set_on (Some get) (VNumber (Finite q)) s) d =
      (Some o,
       (tr ++ [{| sent_method := PUT;
                  sent := {| url := host s ++ "/menu_native/dynamic/tv_settings/audio/volume";
                             json := true;
                             rejectUnauthorized := false;
                             body := VObject
                               [("REQUEST", VString "MODIFY");
                                ("HASHVAL", HASHVAL);
                                ("VALUE", VNumber (Finite (inject_Z (Qfloor (q + (1 # 2))))))];
                             headers := if truthy (_authKey s)
                                        then Some [("AUTH", _authKey s)] else None |};
                  reply := o |}])%list,
       d2).
Proof.
  intros H0 H100 Hget HI Hfind Htruthy Hhash.
  unfold control_volume_set_on. rewrite (validate_in_range _ H0 H100).
  rewrite run_bind, Hget.
  unfold volume_set_then. rewrite HI. simpl. rewrite Hfind. simpl.
  rewrite Htruthy. simpl. rewrite Hhash. simpl.
  destruct (respond w d1 PUT _) as [o d2] eqn:E.
  exists o, d2. reflexivity.
Qed.

(** On such an instance a value that fails validation does not stop the
    lookup: the accessor is still called, and its requests are sent. *)
Lemma volume_set_on_invalid_still_looks_up (D : Type) (w : world D) (d : D) (s : session)
    (get : accessor) (v : value) (r : outcome) :
  validate v = Some r ->
  exists rest,
    exchanges (run w (control_volume_set_on (Some get) v s) d) =
      (exchanges (run w (get s) d) ++ rest)%list.
Proof.
  intros Hv. unfold control_volume_set_on. rewrite Hv, run_bind.
  destruct (run w (get s) d) as [[[o | ] tr] d1]; unfold exchanges; simpl.
  - match goal with
    | |- context [run w ?p d1] => destruct (run w p d1) as [[b tr'] d2]
    end.
    exists tr'. reflexivity.
  - exists []. rewrite app_nil_r. reflexivity.
Qed.

(** C3 (the code departs from it). In every world, when the transport
    rejects the request of [control.volume.get] or of
    [control.volume.getMuteState], the promise handed to the caller is not
    rejected: it stays pending. *)
Theorem volume_getters_never_settle_on_failure :
  forall D (w : world D) (d : D) (s : session)
         (res : option outcome) (ex : exchange) (d' : D) (e : value),
    run w (control_volume_get s) d = (res, [ex], d') \/
    run w (control_volume_getMuteState s) d = (res, [ex], d') ->
    reply ex = Rejected e ->
    res = Some Pending /\ res <> Some (Rejected e).
Proof.
  unfold control_volume_get, control_volume_getMuteState, sendRequest. simpl.
  intros D w d s res ex d' e [H | H] Hreply;
    destruct (respond w d GET _) as [o d1]; injection H as <- <- _;
    simpl in Hreply; subst o; split; [ reflexivity | discriminate
                                     | reflexivity | discriminate ].
Qed.

Lemma volume_getters_never_settle_on_failure_witness :
  let refused := VError "connect ECONNREFUSED 192.168.0.101:9000" in
  (result (run scripted (control_volume_get tv) (answers [Rejected refused]))
     = Some Pending /\
   result (run scripted (control_volume_get tv) (answers [Rejected refused]))
     <> Some (Rejected refused)) /\
  (result (run scripted (control_volume_getMuteState tv) (answers [Rejected refused]))
     = Some Pending /\
   result (run scripted (control_volume_getMuteState tv) (answers [Rejected refused]))
     <> Some (Rejected refused)).
Proof.
  cbv zeta. split.
  - refine (volume_getters_never_settle_on_failure script scripted
              (answers [Rejected (VError "connect ECONNREFUSED 192.168.0.101:9000")]) tv
              _ _ _ _ (or_introl _) _); reflexivity.
  - refine (volume_getters_never_settle_on_failure script scripted
              (answers [Rejected (VError "connect ECONNREFUSED 192.168.0.101:9000")]) tv
              _ _ _ _ (or_intror _) _); reflexivity.
Defined.

(* ================================================================== *)
(** ** 10. Input selection *)
(* ================================================================== *)

Section Lookup.

Variable name : string.

(** The first loop returns the internal name of the first item whose
    internal name matches, and runs to its end only when none does. *)
Lemma search_internal_finds {JS : Engine} (items : list value) (r : option value) :
  search_internal name items = Normal r ->
  match r with
  | Some v =>
      exists item,
        find (fun item => same_name name (internal_name item)) items = Some item /\
        internal_name item = v
  | None => find (fun item => same_name name (internal_name item)) items = None
  end.
Proof.
  revert r. induction items as [ | item rest IH]; intros r; simpl.
  - intros H. injection H as <-. reflexivity.
  - destruct (get_prop item "NAME") as [NAME | e | ] eqn:E; simpl; try discriminate.
    destruct NAME as [ | | | | n | | | | ]; simpl; try discriminate.
    assert (Hn : internal_name item = VString n)
      by (unfold internal_name; rewrite E; reflexivity).
    rewrite Hn. simpl. destruct (lower n =? lower name).
    + intros H. injection H as <-. exists item. split; [ reflexivity | exact Hn ].
    + apply IH.
Qed.

(** The second loop, likewise, on the display names. *)
Lemma search_user_finds {JS : Engine} (items : list value) (r : option value) :
  search_user name items = Normal r ->
  match r with
  | Some v =>
      exists item,
        find (fun item => same_name name (display_name item)) items = Some item /\
        internal_name item = v
  | None => find (fun item => same_name name (display_name item)) items = None
  end.
Proof.
  revert r. induction items as [ | item rest IH]; intros r; simpl.
  - intros H. injection H as <-. reflexivity.
  - destruct (get_prop item "VALUE") as [VALUE | e | ] eqn:E; simpl; try discriminate.
    destruct (get_prop VALUE "NAME") as [NAME | e | ] eqn:E'; simpl; try discriminate.
    destruct NAME as [ | | | | u | | | | ]; simpl; try discriminate.
    assert (Hu : display_name item = VString u)
      by (unfold display_name; rewrite E, E'; reflexivity).
    rewrite Hu. simpl. destruct (lower u =? lower name).
    + destruct (get_prop item "NAME") as [internal | e | ] eqn:E''; simpl; try discriminate.
      intros H. injection H as <-. exists item.
      split; [ reflexivity | unfold internal_name; rewrite E''; reflexivity ].
    + apply IH.
Qed.

(** [findInputByName] refines the lookup of the specification whenever it
    returns. *)
Lemma findInputByName_resolves {JS : Engine} (list v : value) :
  findInputByName name list = Normal v ->
  exists items,
    get_prop list "ITEMS" = Normal (VArray items) /\
    match resolve_input name items with
    | Some internal => v = internal
    | None => v = VNull
    end.
Proof.
  unfold findInputByName.
  destruct (get_prop list "ITEMS") as [ITEMS | e | ]; simpl; try discriminate.
  destruct ITEMS as [ | | | | | items | | | ]; simpl; try discriminate.
  destruct (search_internal name items) as [[internal | ] | e | ] eqn:E1; simpl;
    try discriminate.
  - intros H. injection H as <-. exists items. split; [ reflexivity | ].
    apply search_internal_finds in E1. destruct E1 as (item & Hfind & Hname).
    unfold resolve_input. rewrite Hfind. symmetry. exact Hname.
  - apply search_internal_finds in E1.
    destruct (search_user name items) as [[internal | ] | e | ] eqn:E2; simpl;
      try discriminate; intros H; injection H as <-; exists items;
      (split; [ reflexivity | ]);
      apply search_user_finds in E2;
      unfold resolve_input; rewrite E1.
    + destruct E2 as (item & Hfind & Hname). rewrite Hfind. symmetry. exact Hname.
    + rewrite E2. reflexivity.
Qed.

(** On a list of well-formed items the two loops do not throw. *)
Lemma search_internal_well_formed {JS : Engine} (items : list value) :
  Forall well_formed_item items ->
  exists r, search_internal name items = Normal r.
Proof.
  induction 1 as [ | item rest [[n Hn] _] _ IH]; simpl; [ eauto | ].
  unfold internal_name in Hn.
  destruct (get_prop item "NAME") as [NAME | e | ]; try discriminate.
  subst NAME. simpl. destruct (lower n =? lower name); eauto.
Qed.

Lemma search_user_well_formed {JS : Engine} (items : list value) :
  Forall well_formed_item items ->
  exists r, search_user name items = Normal r.
Proof.
  induction 1 as [ | item rest [[n Hn] [u Hu]] _ IH]; simpl; [ eauto | ].
  unfold internal_name in Hn. unfold display_name in Hu.
  destruct (get_prop item "VALUE") as [VALUE | e | ]; try discriminate. simpl.
  destruct (get_prop VALUE "NAME") as [NAME | e | ]; try discriminate.
  subst NAME. simpl.
  destruct (get_prop item "NAME") as [NAME | e | ]; try discriminate.
  subst NAME. simpl. destruct (lower u =? lower name); eauto.
Qed.

Lemma findInputByName_well_formed {JS : Engine} (inputList : value) (items : list value) :
  get_prop inputList "ITEMS" = Normal (VArray items) ->
  Forall well_formed_item items ->
  findInputByName name inputList =
    Normal (match resolve_input name items with
            | Some internal => internal
            | None => VNull
            end).
Proof.
  intros HI Hwf.
  destruct (search_internal_well_formed items Hwf) as [r1 H1].
  destruct (search_user_well_formed items Hwf) as [r2 H2].
  assert (H : exists v, findInputByName name inputList = Normal v).
  { unfold findInputByName. rewrite HI. simpl. rewrite H1. simpl.
    destruct r1; [ eauto | ]. rewrite H2. simpl. destruct r2; eauto. }
  destruct H as [v Hv]. rewrite Hv.
  destruct (findInputByName_resolves _ _ Hv) as (items' & HI' & Hres).
  rewrite HI in HI'. injection HI' as <-.
  destruct (resolve_input name items); subst v; reflexivity.
Qed.

End Lookup.

Lemma is_string_eq (v : value) (literal : string) :
  is_string v literal = true -> v = VString literal.
Proof.
  destruct v; simpl; try discriminate.
  intros H. apply String.eqb_eq in H. subst. reflexivity.
Qed.

(** The callback of [input.set], with the two status reads named. *)
Lemma input_set_then_eq {JS : Engine} (name : string) (inputList currentInput : value) :
  input_set_then name inputList currentInput =
    (inputName <~ findInputByName name inputList ;;
     RESULT <~ status_result inputList ;;
     failed <~ (if negb (is_string RESULT "SUCCESS") then Normal true
                else RESULT' <~ status_result currentInput ;;
                     Normal (negb (is_string RESULT' "SUCCESS"))) ;;
     if failed : bool then
       Normal (RejectWith (VObject [("list", inputList); ("current", currentInput)]))
     else if negb (truthy inputName) then
       Normal (RejectWith (VString ("Input: " ++ name ++ " not found")))
     else
       ITEMS <~ get_prop currentInput "ITEMS" ;;
       item <~ index ITEMS 0 ;;
       HASHVAL <~ get_prop item "HASHVAL" ;;
       Normal (ModifyWith (VObject [("REQUEST", VString "MODIFY");
                                    ("VALUE", inputName);
                                    ("HASHVAL", HASHVAL)]))).
Proof.
  unfold input_set_then, status_result.
  destruct (findInputByName name inputList) as [inputName | e | ]; simpl; try reflexivity.
  destruct (get_prop inputList "STATUS") as [STATUS | e | ]; simpl; try reflexivity.
  destruct (get_prop STATUS "RESULT") as [RESULT | e | ]; simpl; try reflexivity.
  destruct (negb (is_string RESULT "SUCCESS")); simpl; try reflexivity.
  destruct (get_prop currentInput "STATUS") as [STATUS' | e | ]; simpl; reflexivity.
Qed.

(** A modify request is decided only after both reads reported SUCCESS,
    with the name the lookup of the specification resolves to and the
    HASHVAL of the first item of the current-input response. *)
Lemma input_set_then_modify {JS : Engine} (name : string) (inputList currentInput data : value) :
  input_set_then name inputList currentInput = Normal (ModifyWith data) ->
  exists items internal ITEMS item HASHVAL,
    status_is inputList "SUCCESS" /\
    status_is currentInput "SUCCESS" /\
    get_prop inputList "ITEMS" = Normal (VArray items) /\
    resolve_input name items = Some internal /\
    get_prop currentInput "ITEMS" = Normal ITEMS /\
    index ITEMS 0 = Normal item /\
    get_prop item "HASHVAL" = Normal HASHVAL /\
    data = VObject [("REQUEST", VString "MODIFY"); ("VALUE", internal); ("HASHVAL", HASHVAL)].
Proof.
  rewrite input_set_then_eq.
  destruct (findInputByName name inputList) as [inputName | e | ] eqn:F; simpl;
    try discriminate.
  destruct (status_result inputList) as [R | e | ] eqn:S1; simpl; try discriminate.
  destruct (is_string R "SUCCESS") eqn:I1; simpl; try discriminate.
  destruct (status_result currentInput) as [R' | e | ] eqn:S2; simpl; try discriminate.
  destruct (is_string R' "SUCCESS") eqn:I2; simpl; try discriminate.
  destruct (truthy inputName) eqn:T; simpl; try discriminate.
  destruct (get_prop currentInput "ITEMS") as [ITEMS | e | ] eqn:G; simpl; try discriminate.
  destruct (index ITEMS 0) as [item | e | ] eqn:X; simpl; try discriminate.
  destruct (get_prop item "HASHVAL") as [HASHVAL | e | ] eqn:H; simpl; try discriminate.
  intros Hd. injection Hd as <-.
  apply is_string_eq in I1, I2. subst R R'.
  destruct (findInputByName_resolves _ _ _ F) as (items & HI & Hres).
  destruct (resolve_input name items) as [internal | ] eqn:Hr.
  - subst inputName. exists items, internal, ITEMS, item, HASHVAL.
    unfold status_is. auto 10.
  - subst inputName. discriminate T.
Qed.

(** One run of [input.set]: the two reads are sent, in this order; a third
    request follows only when the callback decides on a modify. *)
Lemma run_input_set {JS : Engine} {D} (w : world D) (d : D) (s : session) (name : string) :
  exists o1 o2 d2,
    let ex1 := {| sent_method := GET; sent := list_request s; reply := o1 |} in
    let ex2 := {| sent_method := GET; sent := current_request s; reply := o2 |} in
    match o1, o2 with
    | Fulfilled inputList, Fulfilled currentInput =>
        match input_set_then name inputList currentInput with
        | Normal (ModifyWith data) =>
            exists o3 d3,
              run w (input_set name s) d =
                (Some o3,
                 [ex1; ex2;
                  {| sent_method := PUT; sent := modify_request s data; reply := o3 |}],
                 d3)
        | Normal (RejectWith e) | Throw e =>
            run w (input_set name s) d = (Some (Rejected e), [ex1; ex2], d2)
        | Unmodelled =>
            run w (input_set name s) d = (None, [ex1; ex2], d2)
        end
    | _, _ =>
        exists res d3,
          run w (input_set name s) d = (res, [ex1; ex2], d3) /\
          match o1, o2 with
          | Rejected e1, Rejected e2 =>
              res = Some (Rejected e1) \/ res = Some (Rejected e2)
          | Rejected e, _ | _, Rejected e => res = Some (Rejected e)
          | _, _ => res = Some Pending
          end
    end.
Proof.
  unfold input_set, input_list, input_current, sendRequest,
    list_request, current_request, modify_request. simpl.
  destruct (respond w d GET _) as [o1 d1] eqn:E1. simpl.
  destruct (respond w d1 GET _) as [o2 d2] eqn:E2. simpl.
  exists o1, o2, d2. cbv zeta.
  destruct o1 as [inputList | e1 | ]; destruct o2 as [currentInput | e2 | ]; simpl;
    try (eexists _, _; split; reflexivity).
  - destruct (input_set_then name inputList currentInput) as [[e | data] | e | ]; simpl;
      try reflexivity.
    destruct (respond w d2 PUT _) as [o3 d3] eqn:E3. exists o3, d3. reflexivity.
  - destruct (race w d2) as [[ | ] d3]; simpl;
      eexists _, _; (split; [ reflexivity | auto ]).
Qed.

(** On well-formed responses that both report SUCCESS the callback decides
    on a modify with the resolved name. *)
Lemma input_set_then_well_formed {JS : Engine} (name : string) (inputList currentInput : value)
    (items : list value) (internal ITEMS item HASHVAL : value) :
  status_is inputList "SUCCESS" ->
  status_is currentInput "SUCCESS" ->
  get_prop inputList "ITEMS" = Normal (VArray items) ->
  Forall well_formed_item items ->
  resolve_input name items = Some internal ->
  truthy internal = true ->
  get_prop currentInput "ITEMS" = Normal ITEMS ->
  index ITEMS 0 = Normal item ->
  get_prop item "HASHVAL" = Normal HASHVAL ->
  input_set_then name inputList currentInput =
    Normal (ModifyWith (VObject [("REQUEST", VString "MODIFY");
                                 ("VALUE", internal);
                                 ("HASHVAL", HASHVAL)])).
Proof.
  intros S1 S2 HI Hwf Hres Ht HC HX HH.
  rewrite input_set_then_eq, (findInputByName_well_formed _ _ _ HI Hwf), Hres.
  unfold status_is in S1, S2. simpl. rewrite S1. simpl. rewrite S2. simpl.
  rewrite Ht. simpl. rewrite HC. simpl. rewrite HX. simpl. rewrite HH. reflexivity.
Qed.

(** C5. [input.set] resolves the name by comparison, letter case aside,
    with the internal name (NAME) and the display name (VALUE.NAME) of
    each item, a match on an internal name coming before any match on a
    display name, and the VALUE of the modify request is the internal name
    of the matched item as the list has it. The statement is about the
    runs that stay within the modelled fragment ([res <> None]: the ITEMS
    members that are read are arrays). First part: whenever a modify
    request is sent, the two reads were fulfilled and its body holds
    REQUEST 'MODIFY', the internal name that [resolve_input] gives on the
    items of the list response, and the HASHVAL of the first item of the
    current-input response. Second part: on well-formed responses that
    both report SUCCESS, when [resolve_input] gives a (non-empty) internal
    name, that modify request is sent and the promise takes its state.
    Third part: the comparison of [resolve_input] is that of the lower-case
    forms, which on ASCII names is equality up to the case of the letters
    A-Z. *)
Theorem input_set_sends_resolved_internal_name :
  forall {JS : Engine} D (w : world D) (d : D) (s : session) (name : string)
         (res : option outcome) (tr : list exchange) (d' : D),
    run w (input_set name s) d = (res, tr, d') ->
    res <> None ->
    (forall ex,
       In ex tr -> sent_method ex = PUT ->
       exists ex1 ex2 inputList currentInput items internal ITEMS item HASHVAL,
         tr = [ex1; ex2; ex] /\
         reply ex1 = Fulfilled inputList /\
         reply ex2 = Fulfilled currentInput /\
         get_prop inputList "ITEMS" = Normal (VArray items) /\
         resolve_input name items = Some internal /\
         get_prop currentInput "ITEMS" = Normal ITEMS /\
         index ITEMS 0 = Normal item /\
         get_prop item "HASHVAL" = Normal HASHVAL /\
         body (sent ex) = VObject [("REQUEST", VString "MODIFY");
                                   ("VALUE", internal);
                                   ("HASHVAL", HASHVAL)] /\
         res = Some (reply ex))
    /\
    (forall ex1 ex2 rest inputList currentInput items internal ITEMS item HASHVAL,
       tr = ex1 :: ex2 :: rest ->
       reply ex1 = Fulfilled inputList ->
       reply ex2 = Fulfilled currentInput ->
       status_is inputList "SUCCESS" ->
       status_is currentInput "SUCCESS" ->
       get_prop inputList "ITEMS" = Normal (VArray items) ->
       Forall well_formed_item items ->
       resolve_input name items = Some internal ->
       truthy internal = true ->
       get_prop currentInput "ITEMS" = Normal ITEMS ->
       index ITEMS 0 = Normal item ->
       get_prop item "HASHVAL" = Normal HASHVAL ->
       exists ex3,
         rest = [ex3] /\
         sent_method ex3 = PUT /\
         sent ex3 = modify_request s (VObject [("REQUEST", VString "MODIFY");
                                               ("VALUE", internal);
                                               ("HASHVAL", HASHVAL)]) /\
         res = Some (reply ex3))
    /\
    (forall v n,
       (same_name name v = true ->
        exists n', v = VString n' /\ lower n' = lower name) /\
       (lower n = lower name -> same_name name (VString n) = true) /\
       (ascii_only n = true -> ascii_only name = true ->
        same_name name (VString n) = (fold n =? fold name))).
Proof.
  intros JS D w d s name res tr d' Hrun _.
  destruct (run_input_set w d s name) as (o1 & o2 & d2 & H). cbv zeta in H.
  split; [ | split ].
  - intros ex Hin Hput.
    assert (Hno : forall r d3,
              run w (input_set name s) d =
                (r, [{| sent_method := GET; sent := list_request s; reply := o1 |};
                     {| sent_method := GET; sent := current_request s; reply := o2 |}], d3) ->
              False).
    { intros r d3 Hr. rewrite Hr in Hrun. injection Hrun as _ <- _.
      destruct Hin as [<- | [<- | []]]; discriminate Hput. }
    destruct o1 as [inputList | e1 | ]; destruct o2 as [currentInput | e2 | ];
      try (destruct H as (r & d3 & Hr & _); destruct (Hno _ _ Hr)).
    destruct (input_set_then name inputList currentInput) as [[e | data] | e | ] eqn:Hthen;
      try (destruct (Hno _ _ H)).
    destruct H as (o3 & d3 & Hr). rewrite Hr in Hrun. injection Hrun as <- <- _.
    destruct Hin as [<- | [<- | [<- | []]]]; try discriminate Hput.
    destruct (input_set_then_modify _ _ _ _ Hthen)
      as (items & internal & ITEMS & item & HASHVAL & _ & _ & HI & Hres & HC & HX & HH & ->).
    eexists _, _, inputList, currentInput, items, internal, ITEMS, item, HASHVAL.
    simpl. auto 12.
  - intros ex1 ex2 rest inputList currentInput items internal ITEMS item HASHVAL
           Htr R1 R2 S1 S2 HI Hwf Hres Ht HC HX HH.
    assert (Ho : o1 = Fulfilled inputList /\ o2 = Fulfilled currentInput).
    { destruct o1 as [l | e1 | ]; destruct o2 as [c | e2 | ];
        try (destruct H as (r & d3 & Hr & _); rewrite Hr in Hrun;
             injection Hrun as _ <- _; injection Htr as <- <- _;
             simpl in R1, R2; split; congruence).
      destruct (input_set_then name l c) as [[e | data] | e | ];
        try (destruct H as (o3 & d3 & H));
        rewrite H in Hrun; injection Hrun as _ <- _; injection Htr as <- <- _;
        simpl in R1, R2; split; congruence. }
    destruct Ho as [-> ->].
    rewrite (input_set_then_well_formed _ _ _ _ _ _ _ _ S1 S2 HI Hwf Hres Ht HC HX HH) in H.
    destruct H as (o3 & d3 & Hr). rewrite Hr in Hrun. injection Hrun as <- <- _.
    injection Htr as _ _ <-.
    eexists. split; [ reflexivity | ]. simpl. auto.
  - intros v n. split; [ | split ].
    + destruct v; simpl; try discriminate.
      intros Hm. apply String.eqb_eq in Hm. eauto.
    + intros Hl. simpl. rewrite Hl. apply String.eqb_refl.
    + intros Hn Hname. simpl.
      rewrite (lower_ascii n Hn), (lower_ascii name Hname). reflexivity.
Qed.

Lemma input_item_well_formed (internal display : string) :
  well_formed_item (input_item internal display).
Proof. split; eexists; reflexivity. Qed.

Lemma input_set_sends_resolved_internal_name_witness :
  let JS := ascii_engine in
  let d := answers [Fulfilled input_list_response; Fulfilled current_input_response;
                    Fulfilled (with_status "SUCCESS" [])] in
  let x := run scripted (input_set "Hdmi-1" tv) d in
  let ex1 := {| sent_method := GET; sent := list_request tv;
                reply := Fulfilled input_list_response |} in
  let ex2 := {| sent_method := GET; sent := current_request tv;
                reply := Fulfilled current_input_response |} in
  let data := VObject [("REQUEST", VString "MODIFY");
                       ("VALUE", VString "hdmi1");
                       ("HASHVAL", num 1384176379)] in
  let ex3 := {| sent_method := PUT; sent := modify_request tv data;
                reply := Fulfilled (with_status "SUCCESS" []) |} in
  exchanges x = [ex1; ex2; ex3] /\
  result x <> None /\
  resolve_input "Hdmi-1" [input_item "cast" "CAST"; input_item "hdmi1" "HDMI-1";
                          input_item "hdmi2" "Console"] = Some (VString "hdmi1") /\
  (exists ex3',
     [ex3] = [ex3'] /\
     sent_method ex3' = PUT /\
     sent ex3' = modify_request tv data /\
     result x = Some (reply ex3')) /\
  (exists ex1 ex2 inputList currentInput items internal ITEMS item HASHVAL,
     exchanges x = [ex1; ex2; ex3] /\
     reply ex1 = Fulfilled inputList /\
     reply ex2 = Fulfilled currentInput /\
     get_prop inputList "ITEMS" = Normal (VArray items) /\
     resolve_input "Hdmi-1" items = Some internal /\
     get_prop currentInput "ITEMS" = Normal ITEMS /\
     index ITEMS 0 = Normal item /\
     get_prop item "HASHVAL" = Normal HASHVAL /\
     body (sent ex3) = VObject [("REQUEST", VString "MODIFY");
                                ("VALUE", internal);
                                ("HASHVAL", HASHVAL)] /\
     result x = Some (reply ex3)) /\
  (ascii_only "HDMI-1" = true /\ ascii_only "Hdmi-1" = true /\
   same_name "Hdmi-1" (VString "HDMI-1") = (fold "HDMI-1" =? fold "Hdmi-1") /\
   same_name "Hdmi-1" (VString "HDMI-1") = true /\
   same_name "Hdmi-1" (VString "hdmi1") = false).
Proof.
  cbv zeta.
  assert (Hres : result (run scripted (input_set (JS := ascii_engine) "Hdmi-1" tv)
                   (answers [Fulfilled input_list_response;
                             Fulfilled current_input_response;
                             Fulfilled (with_status "SUCCESS" [])])) <> None)
    by discriminate.
  destruct (input_set_sends_resolved_internal_name (JS := ascii_engine) script scripted
              (answers [Fulfilled input_list_response; Fulfilled current_input_response;
                        Fulfilled (with_status "SUCCESS" [])])
              tv "Hdmi-1" _ _ _ eq_refl Hres) as (Hsound & Hcomplete & Hcase).
  split; [ reflexivity | ]. split; [ exact Hres | ]. split; [ reflexivity | ].
  split; [ | split ].
  - refine (Hcomplete _ _ _ input_list_response current_input_response
              [input_item "cast" "CAST"; input_item "hdmi1" "HDMI-1";
               input_item "hdmi2" "Console"]
              (VString "hdmi1") _ _ (num 1384176379)
              eq_refl eq_refl eq_refl eq_refl eq_refl eq_refl _ eq_refl eq_refl
              eq_refl eq_refl eq_refl).
    repeat constructor; apply input_item_well_formed.
  - apply (Hsound {| sent_method := PUT;
                     sent := modify_request tv
                               (VObject [("REQUEST", VString "MODIFY");
                                         ("VALUE", VString "hdmi1");
                                         ("HASHVAL", num 1384176379)]);
                     reply := Fulfilled (with_status "SUCCESS" []) |}).
    + right. right. left. reflexivity.
    + reflexivity.
  - split; [ reflexivity | ]. split; [ reflexivity | ].
    split; [ exact (proj2 (proj2 (Hcase VUndefined "HDMI-1")) eq_refl eq_refl) | ].
    split; reflexivity.
Defined.

(** Whatever the engine, a request that differs from a display name only
    in the case of ASCII letters is resolved to the internal name of that
    item. *)
Example lookup_folds_the_case_of_ascii_letters :
  forall {JS : Engine},
    findInputByName "hdmi-1" input_list_response = Normal (VString "hdmi1") /\
    findInputByName "CONSOLE" input_list_response = Normal (VString "hdmi2") /\
    findInputByName "Cast" input_list_response = Normal (VString "cast").
Proof.
  intros JS. unfold findInputByName, input_list_response, input_item. simpl.
  repeat rewrite lower_ascii by reflexivity. simpl. repeat split.
Qed.

(** A match on an internal name comes before a match on a display name of
    an earlier item. *)
Example internal_name_takes_priority :
  forall {JS : Engine},
    resolve_input "HDMI2" [input_item "hdmi1" "hdmi2"; input_item "hdmi2" "Console"]
      = Some (VString "hdmi2") /\
    findInputByName "HDMI2"
      (with_status "SUCCESS"
         [("ITEMS", VArray [input_item "hdmi1" "hdmi2"; input_item "hdmi2" "Console"])])
      = Normal (VString "hdmi2") /\
    findInputByName "console"
      (with_status "SUCCESS"
         [("ITEMS", VArray [input_item "hdmi1" "hdmi2"; input_item "hdmi2" "Console"])])
      = Normal (VString "hdmi2").
Proof.
  intros JS. unfold resolve_input, findInputByName, input_item. simpl.
  repeat rewrite lower_ascii by reflexivity. simpl. repeat split.
Qed.

(** What [input.set] does once both reads are fulfilled. *)
Lemma run_input_set_fulfilled {JS : Engine} {D} (w : world D) (d : D) (s : session) (name : string)
    (res : option outcome) (ex1 ex2 : exchange) (rest : list exchange) (d' : D)
    (inputList currentInput : value) :
  run w (input_set name s) d = (res, ex1 :: ex2 :: rest, d') ->
  reply ex1 = Fulfilled inputList ->
  reply ex2 = Fulfilled currentInput ->
  match input_set_then name inputList currentInput with
  | Normal (ModifyWith data) =>
      exists ex3,
        rest = [ex3] /\ sent_method ex3 = PUT /\ sent ex3 = modify_request s data /\
        res = Some (reply ex3)
  | Normal (RejectWith e) | Throw e => res = Some (Rejected e) /\ rest = []
  | Unmodelled => res = None /\ rest = []
  end.
Proof.
  intros Hrun R1 R2.
  destruct (run_input_set w d s name) as (o1 & o2 & d2 & H). cbv zeta in H.
  assert (Ho : o1 = Fulfilled inputList /\ o2 = Fulfilled currentInput).
  { destruct o1 as [l | e1 | ]; destruct o2 as [c | e2 | ];
      try (destruct H as (r & d3 & Hr & _); rewrite Hr in Hrun;
           injection Hrun as _ <- <- _; simpl in R1, R2; split; congruence).
    destruct (input_set_then name l c) as [[e | data] | e | ];
      try (destruct H as (o3 & d3 & H));
      rewrite H in Hrun; injection Hrun as _ <- <- _;
      simpl in R1, R2; split; congruence. }
  destruct Ho as [-> ->].
  destruct (input_set_then name inputList currentInput) as [[e | data] | e | ].
  - rewrite H in Hrun. injection Hrun as <- _ _ <-. split; reflexivity.
  - destruct H as (o3 & d3 & H). rewrite H in Hrun. injection Hrun as <- _ _ <-.
    eexists. split; [ reflexivity | ]. simpl. auto.
  - rewrite H in Hrun. injection Hrun as <- _ _ <-. split; reflexivity.
  - rewrite H in Hrun. injection Hrun as <- _ _ <-. split; reflexivity.
Qed.

(** C4 (the code departs from it). Both reads of [input.set] complete and
    the list response reports a failure and has no ITEMS member, as the
    failure responses of the device are. [findInputByName] runs before the
    status check and throws on the missing ITEMS, so the promise is
    rejected with a TypeError and not with the object holding both
    responses. No modify request is sent. *)
Theorem input_set_failed_list_without_items_throws :
  forall {JS : Engine} D (w : world D) (d : D) (s : session) (name : string)
         (res : option outcome) (ex1 ex2 : exchange) (rest : list exchange) (d' : D)
         (inputList currentInput : value) (r : string),
    run w (input_set name s) d = (res, ex1 :: ex2 :: rest, d') ->
    reply ex1 = Fulfilled inputList ->
    reply ex2 = Fulfilled currentInput ->
    status_is inputList r -> r <> "SUCCESS" ->
    get_prop inputList "ITEMS" = Normal VUndefined ->
    res = Some (Rejected VTypeError) /\
    res <> Some (Rejected (VObject [("list", inputList); ("current", currentInput)])) /\
    rest = [].
Proof.
  intros JS D w d s name res ex1 ex2 rest d' inputList currentInput r
         Hrun R1 R2 _ _ HI.
  pose proof (run_input_set_fulfilled w d s name res ex1 ex2 rest d' _ _ Hrun R1 R2) as H.
  assert (Hthen : input_set_then name inputList currentInput = Throw VTypeError).
  { unfold input_set_then, findInputByName. rewrite HI. reflexivity. }
  rewrite Hthen in H. destruct H as [-> ->].
  split; [ reflexivity | ]. split; [ discriminate | reflexivity ].
Qed.

Lemma input_set_failed_list_without_items_throws_witness :
  let JS := ascii_engine in
  let failed := with_status "FAILURE" [] in
  let x := run scripted (input_set "hdmi1" tv)
               (answers [Fulfilled failed; Fulfilled current_input_response]) in
  status_is failed "FAILURE" /\
  get_prop failed "ITEMS" = Normal VUndefined /\
  result x = Some (Rejected VTypeError) /\
  result x <> Some (Rejected (VObject [("list", failed);
                                       ("current", current_input_response)])) /\
  skipn 2 (exchanges x) = [].
Proof.
  cbv zeta. split; [ reflexivity | ]. split; [ reflexivity | ].
  refine (input_set_failed_list_without_items_throws (JS := ascii_engine) script scripted
            (answers [Fulfilled (with_status "FAILURE" []);
                      Fulfilled current_input_response])
            tv "hdmi1" _ _ _ _ _ (with_status "FAILURE" []) current_input_response
            "FAILURE" eq_refl eq_refl eq_refl eq_refl _ eq_refl).
  discriminate.
Defined.


(** X14. Whatever the responses hold, no modify request follows a read of
    [input.set] that does not report SUCCESS. *)
Lemma input_set_failed_read_sends_no_modify :
  forall {JS : Engine} D (w : world D) (d : D) (s : session) (name : string)
         (res : option outcome) (ex1 ex2 : exchange) (rest : list exchange) (d' : D)
         (inputList currentInput : value),
    run w (input_set name s) d = (res, ex1 :: ex2 :: rest, d') ->
    reply ex1 = Fulfilled inputList ->
    reply ex2 = Fulfilled currentInput ->
    ~ status_is inputList "SUCCESS" \/ ~ status_is currentInput "SUCCESS" ->
    rest = [].
Proof.
  intros JS D w d s name res ex1 ex2 rest d' inputList currentInput Hrun R1 R2 Hfail.
  destruct (run_input_set w d s name) as (o1 & o2 & d2 & H). cbv zeta in H.
  destruct o1 as [l | e1 | ]; destruct o2 as [c | e2 | ];
    try (destruct H as (r & d3 & Hr & _); rewrite Hr in Hrun;
         injection Hrun as _ _ _ <-; reflexivity).
  destruct (input_set_then name l c) as [[e | data] | e | ] eqn:Hthen;
    try (rewrite H in Hrun; injection Hrun as _ _ _ <-; reflexivity).
  destruct H as (o3 & d3 & H). rewrite H in Hrun. injection Hrun as _ <- <- _.
  simpl in R1, R2. injection R1 as <-. injection R2 as <-.
  destruct (input_set_then_modify _ _ _ _ Hthen) as (? & ? & ? & ? & ? & S1 & S2 & _).
  destruct Hfail as [Hf | Hf]; contradiction.
Qed.

(* ================================================================== *)
(** ** 11. The AUTH header *)
(* ================================================================== *)

(** One step of a proof that every request of a computation goes on the
    wire as it should: take the computation apart at its head, and case on
    whatever its next step depends on. [H] says the token is truthy. *)
Ltac wire_step H :=
  first
    [ apply sends_Ret
    | apply sends_Stuck
    | apply sends_Clock; intros ?
    | apply sends_Race; intros ?
    | apply sends_Http;
      [ split;
        [ simpl; rewrite ?H; reflexivity
        | eexists; split; [ | reflexivity ]; simpl; tauto ]
      | intros ? ]
    | match goal with
      | |- always_sends _ (then_ ?o ?s ?c) =>
          unfold then_; destruct (then_result o s c)
      | |- always_sends _ (bind (match ?x with _ => _ end) _) => destruct x
      | |- always_sends _ (match ?x with _ => _ end) => destruct x
      | |- always_sends _ (bind (if ?b then _ else _) _) => destruct b
      | |- always_sends _ (bind _ _) => apply always_sends_bind; [ | intros ? ]
      end ];
  simpl.

Lemma perform_on_the_wire {JS : Engine} (op : operation) (s : session) :
  truthy (_authKey s) = true ->
  always_sends (on_the_wire s (authenticated op)) (perform op s).
Proof.
  intros H.
  destruct op; simpl;
    unfold keep, power_currentMode, pairing_initiate, pairing_pair, input_list,
      input_current, input_set, control_keyCommand, control_volume_down,
      control_volume_up, control_volume_get, control_volume_set, control_volume_set_on,
      this_settings_audio_get, control_volume_getMuteState, control_volume_unmute,
      control_volume_mute, control_volume_toggleMute, control_input_cycle,
      control_power_off, control_power_on, control_power_toggle,
      control_media_seek_forward, control_media_seek_back, control_media_play,
      control_media_pause, control_media_cc, control_menu, control_info,
      control_smartcast, control_keyCommand, or_node_app, input_list, input_current,
      Promise_all, sendRequest;
    simpl; repeat wire_step H.
Qed.

(** C2, as the code has it. On a session with a stored (truthy) token,
    every request of every operation other than [power.currentMode],
    [pairing.initiate] and [pairing.pair] carries that token in a header
    named AUTH; the requests of these three carry no header. Every request
    goes to the host of the session followed by one of the fixed paths, so
    the token is never part of the URL. *)
Theorem AUTH_header_on_all_but_power_and_pairing :
  forall {JS : Engine} D (w : world D) (d : D) (op : operation) (s : session),
    truthy (_authKey s) = true ->
    Forall (fun ex => on_the_wire s (authenticated op) (sent_method ex) (sent ex))
           (exchanges (run w (perform op s) d)).
Proof.
  intros JS D w d op s H.
  apply always_sends_run, perform_on_the_wire, H.
Qed.

Lemma AUTH_header_on_all_but_power_and_pairing_witness :
  let JS := ascii_engine in
  truthy (_authKey tv) = true /\
  Forall (fun ex => on_the_wire tv true (sent_method ex) (sent ex))
         (exchanges (run scripted (perform (InputSet "HDMI-1") tv)
                         (answers [Fulfilled input_list_response;
                                   Fulfilled current_input_response;
                                   Fulfilled (with_status "SUCCESS" [])]))) /\
  Forall (fun ex => on_the_wire tv false (sent_method ex) (sent ex))
         (exchanges (run scripted (perform CurrentMode tv)
                         (answers [Fulfilled (with_status "SUCCESS" [])]))).
Proof.
  split; [ reflexivity | ]. split.
  - exact (AUTH_header_on_all_but_power_and_pairing script scripted
             (answers [Fulfilled input_list_response;
                       Fulfilled current_input_response;
                       Fulfilled (with_status "SUCCESS" [])])
             (InputSet "HDMI-1") tv eq_refl).
  - exact (AUTH_header_on_all_but_power_and_pairing script scripted
             (answers [Fulfilled (with_status "SUCCESS" [])])
             CurrentMode tv eq_refl).
Defined.

(** C2 as stated fails: [power.currentMode] on a session with a stored
    token sends its request without the AUTH header. *)
Lemma currentMode_sends_no_AUTH_header :
  truthy (_authKey tv) = true /\
  (exists ex,
     exchanges (run scripted (power_currentMode tv)
                    (answers [Fulfilled (with_status "SUCCESS" [])])) = [ex] /\
     headers (sent ex) = None) /\
  ~ Forall (fun ex => carries_AUTH (_authKey tv) (sent ex))
           (exchanges (run scripted (power_currentMode tv)
                           (answers [Fulfilled (with_status "SUCCESS" [])]))).
Proof.
  split; [ reflexivity | ]. split.
  - eexists. split; reflexivity.
  - intros H. inversion H as [ | ex rest Hex _ ]. discriminate Hex.
Qed.

(* ================================================================== *)
(** ** 12. Transport failures *)
(* ================================================================== *)

Lemma run_keep_sendRequest {D} (w : world D) (d : D) (s : session)
    (m : method) (u : string) (authKey data : value) :
  exists o d1 r,
    run w (keep s (sendRequest m u authKey data)) d =
      (Some (o, s), [{| sent_method := m; sent := r; reply := o |}], d1).
Proof.
  unfold keep, sendRequest. simpl.
  destruct (respond w d m _) as [o d1]. eexists o, d1, _. reflexivity.
Qed.

Lemma run_keep {D} (w : world D) (d : D) (s : session) (p : io outcome) :
  run w (keep s p) d =
    let '(r, tr, d1) := run w p d in (option_map (fun o => (o, s)) r, tr, d1).
Proof.
  unfold keep. rewrite run_bind.
  destruct (run w p d) as [[[o | ] tr] d1]; simpl; [ | reflexivity ].
  rewrite app_nil_r. reflexivity.
Qed.

(** X15. Every operation other than the two volume getters hands a failure
    of the transport on: when a request of the operation is rejected, the
    promise of the operation is rejected with the reason of a rejected
    request. *)
Lemma transport_failure_is_propagated :
  forall {JS : Engine} D (w : world D) (d : D) (op : operation) (s : session)
         (res : option (outcome * session)) (tr : list exchange) (d' : D),
    op <> VolumeGet -> op <> GetMuteState ->
    run w (perform op s) d = (res, tr, d') ->
    (exists ex e, In ex tr /\ reply ex = Rejected e) ->
    exists e s',
      res = Some (Rejected e, s') /\
      exists ex, In ex tr /\ reply ex = Rejected e.
Proof.
  intros JS D w d op s res tr d' Hget Hmute Hrun (ex & e & Hin & Hreply).
  assert (Hone : forall m u a b,
            run w (keep s (sendRequest m u a b)) d = (res, tr, d') ->
            exists e s', res = Some (Rejected e, s') /\
                         exists ex, In ex tr /\ reply ex = Rejected e).
  { intros m u a b Hr.
    destruct (run_keep_sendRequest w d s m u a b) as (o & d1 & r & H).
    rewrite H in Hr. injection Hr as <- <- _.
    apply only_exchange in Hin. subst ex. simpl in Hreply. subst o.
    exists e, s. split; [ reflexivity | ].
    eexists. split; [ left; reflexivity | reflexivity ]. }
  destruct op; try congruence; unfold perform in Hrun;
    try (eapply Hone; exact Hrun).
  - exact (Hone GET (host s ++ "/state/device/power_mode") VUndefined VUndefined Hrun).
  - destruct (run_initiate w d s deviceName deviceId) as (t1 & t2 & o & d1 & H).
    cbv zeta in H. rewrite H in Hrun. injection Hrun as <- <- _.
    apply only_exchange in Hin. subst ex. simpl in Hreply. subst o.
    eexists e, _. split; [ reflexivity | ].
    eexists. split; [ left; reflexivity | reflexivity ].
  - destruct (run_pair w d s pin) as (o & d1 & H).
    rewrite H in Hrun. injection Hrun as <- <- _.
    apply only_exchange in Hin. subst ex. simpl in Hreply. subst o.
    eexists e, _. split; [ reflexivity | ].
    eexists. split; [ left; reflexivity | reflexivity ].
  - rewrite run_keep in Hrun.
    destruct (run_input_set w d s name) as (o1 & o2 & d2 & H). cbv zeta in H.
    destruct o1 as [l | e1 | ]; destruct o2 as [c | e2 | ];
      try (destruct H as (r & d3 & Hr & Hres); rewrite Hr in Hrun; simpl in Hrun;
           injection Hrun as <- <- _;
           first
             [ destruct Hin as [<- | [<- | []]]; discriminate Hreply
             | (destruct Hres as [-> | ->] || subst r);
               eexists _, s; (split; [ reflexivity | ]);
               first [ eexists; split; [ left; reflexivity | reflexivity ]
                     | eexists; split; [ right; left; reflexivity | reflexivity ] ] ]).
    destruct (input_set_then name l c) as [[e' | data] | e' | ];
      try (rewrite H in Hrun; simpl in Hrun; injection Hrun as <- <- _;
           destruct Hin as [<- | [<- | []]]; discriminate Hreply).
    destruct H as (o3 & d3 & H). rewrite H in Hrun. simpl in Hrun.
    injection Hrun as <- <- _.
    destruct Hin as [<- | [<- | [<- | []]]]; try discriminate Hreply.
    simpl in Hreply. subst o3. exists e, s. split; [ reflexivity | ].
    eexists. split; [ right; right; left; reflexivity | reflexivity ].
  - unfold keep in Hrun. simpl in Hrun. injection Hrun as _ <- _. destruct Hin.
Qed.

(* ================================================================== *)
(** ** 13. The constructor and the token *)
(* ================================================================== *)

Lemma always_sends_weaken {A} (P Q : method -> request -> Prop) (p : io A) :
  (forall m r, P m r -> Q m r) -> always_sends P p -> always_sends Q p.
Proof.
  intros HPQ. induction 1; constructor; auto.
Qed.

Lemma append_assoc (a b c : string) : (a ++ b) ++ c = a ++ (b ++ c).
Proof.
  induction a as [ | x a IH]; simpl; [ reflexivity | rewrite IH; reflexivity ].
Qed.

(** Without a truthy token no operation sets a header. *)
Lemma perform_bare {JS : Engine} (op : operation) (s : session) :
  truthy (_authKey s) = false ->
  always_sends (bare s) (perform op s).
Proof.
  intros H.
  destruct op; simpl;
    unfold keep, power_currentMode, pairing_initiate, pairing_pair, input_list,
      input_current, input_set, control_keyCommand, control_volume_down,
      control_volume_up, control_volume_get, control_volume_set, control_volume_set_on,
      this_settings_audio_get, control_volume_getMuteState, control_volume_unmute,
      control_volume_mute, control_volume_toggleMute, control_input_cycle,
      control_power_off, control_power_on, control_power_toggle,
      control_media_seek_forward, control_media_seek_back, control_media_play,
      control_media_pause, control_media_cc, control_menu, control_info,
      control_smartcast, control_keyCommand, or_node_app, input_list, input_current,
      Promise_all, sendRequest;
    simpl; repeat wire_step H.
Qed.

(** Whatever the token, every request goes to the host of the session
    followed by one of the fixed paths. *)
Lemma perform_url {JS : Engine} (op : operation) (s : session) :
  always_sends (fun _ r => exists path, In path paths /\ url r = host s ++ path)
               (perform op s).
Proof.
  destruct (truthy (_authKey s)) eqn:H.
  - eapply always_sends_weaken; [ | exact (perform_on_the_wire op s H) ].
    intros m r [_ Hp]. exact Hp.
  - eapply always_sends_weaken; [ | exact (perform_bare op s H) ].
    intros m r [_ Hp]. exact Hp.
Qed.

(** X1. Every request of every operation of [new SMARTCAST(h, authKey)]
    goes to [https://] followed by the host and one of the fixed paths:
    when [h] holds no colon ([indexOf(':') == -1]) the port 9000 is put
    after it, and when it holds one, [h] is used as it is. *)
Theorem requests_go_to_https_host_and_port :
  forall {JS : Engine} D (w : world D) (d : D) (h : string) (authKey : value) (op : operation),
    (String.index 0 ":" h = None ->
     Forall (fun ex => exists path,
               In path paths /\ url (sent ex) = "https://" ++ h ++ ":9000" ++ path)
            (exchanges (run w (perform op (SMARTCAST h authKey)) d))) /\
    (forall n, String.index 0 ":" h = Some n ->
     Forall (fun ex => exists path,
               In path paths /\ url (sent ex) = "https://" ++ h ++ path)
            (exchanges (run w (perform op (SMARTCAST h authKey)) d))).
Proof.
  intros JS D w d h authKey op.
  pose proof (always_sends_run _ w _ (perform_url op (SMARTCAST h authKey)) d) as H.
  split; [ intros Hi | intros n Hi ];
    (eapply Forall_impl; [ | exact H ]);
    intros ex (path & Hin & Hurl); exists path; (split; [ exact Hin | ]);
    rewrite Hurl; unfold SMARTCAST; simpl host; rewrite Hi; unfold PROTO.
  - simpl. rewrite append_assoc. reflexivity.
  - reflexivity.
Qed.

Lemma requests_go_to_https_host_and_port_witness :
  let JS := ascii_engine in
  (String.index 0 ":" "192.168.0.101" = None /\
   Forall (fun ex => exists path,
             In path paths /\
             url (sent ex) = "https://" ++ "192.168.0.101" ++ ":9000" ++ path)
          (exchanges (run scripted
                          (perform InputList (SMARTCAST "192.168.0.101" (VString "Zb8x2yqjan")))
                          (answers [Fulfilled input_list_response])))) /\
  (String.index 0 ":" "192.168.0.101:7345" = Some 13%nat /\
   Forall (fun ex => exists path,
             In path paths /\
             url (sent ex) = "https://" ++ "192.168.0.101:7345" ++ path)
          (exchanges (run scripted
                          (perform CurrentMode (SMARTCAST "192.168.0.101:7345" VUndefined))
                          (answers [Fulfilled (with_status "SUCCESS" [])])))).
Proof.
  split; (split; [ reflexivity | ]).
  - exact (proj1 (requests_go_to_https_host_and_port script scripted
                    (answers [Fulfilled input_list_response])
                    "192.168.0.101" (VString "Zb8x2yqjan") InputList) eq_refl).
  - exact (proj2 (requests_go_to_https_host_and_port script scripted
                    (answers [Fulfilled (with_status "SUCCESS" [])])
                    "192.168.0.101:7345" VUndefined CurrentMode) 13%nat eq_refl).
Defined.

(** X2. On a session whose token is falsy (an instance built without
    [authKey], or with the empty string) no request of any operation has a
    headers member. *)
Theorem no_token_no_header :
  forall {JS : Engine} D (w : world D) (d : D) (op : operation) (s : session),
    truthy (_authKey s) = false ->
    Forall (fun ex => headers (sent ex) = None) (exchanges (run w (perform op s) d)).
Proof.
  intros JS D w d op s H.
  eapply Forall_impl; [ | exact (always_sends_run _ w _ (perform_bare op s H) d) ].
  intros ex [Hh _]. exact Hh.
Qed.

Lemma no_token_no_header_witness :
  let JS := ascii_engine in
  truthy (_authKey (SMARTCAST "192.168.0.101" VUndefined)) = false /\
  Forall (fun ex => headers (sent ex) = None)
         (exchanges (run scripted
                         (perform (InputSet "HDMI-1") (SMARTCAST "192.168.0.101" VUndefined))
                         (answers [Fulfilled input_list_response;
                                   Fulfilled current_input_response;
                                   Fulfilled (with_status "SUCCESS" [])]))).
Proof.
  split; [ reflexivity | ].
  exact (no_token_no_header script scripted
           (answers [Fulfilled input_list_response;
                     Fulfilled current_input_response;
                     Fulfilled (with_status "SUCCESS" [])])
           (InputSet "HDMI-1") (SMARTCAST "192.168.0.101" VUndefined) eq_refl).
Defined.



(* ================================================================== *)
(** ** 14. More on the pairing handshake *)
(* ================================================================== *)

(** What [then] makes of the callback of [initiate], case by case: the
    promise is fulfilled, with the response, exactly when the response
    reports SUCCESS and its ITEM can be read, and only then is the session
    written. *)
Lemma initiate_then_cases (o : outcome) (s : session) :
  exists o' s',
    then_result o s initiate_then = Some (o', s') /\
    ((exists data ITEM token,
        o = Fulfilled data /\ status_is data "SUCCESS" /\
        get_prop data "ITEM" = Normal ITEM /\
        get_prop ITEM "PAIRING_REQ_TOKEN" = Normal token /\
        o' = Fulfilled data /\ s' = set_pairingRequestToken s token)
     \/ (s' = s /\ forall v, o' <> Fulfilled v)).
Proof.
  destruct o as [data | e | ]; simpl;
    [ | eexists _, _; split; [ reflexivity | right; split; [ reflexivity | discriminate ] ]
      | eexists _, _; split; [ reflexivity | right; split; [ reflexivity | discriminate ] ] ].
  rewrite initiate_then_eq.
  destruct (status_result data) as [RESULT | e | ] eqn:E;
    [ | eexists _, _; split; [ reflexivity | right; split; [ reflexivity | discriminate ] ]
      | destruct (status_result_modelled _ E) ].
  destruct (is_string RESULT "SUCCESS") eqn:Es.
  - apply is_string_eq in Es. subst RESULT.
    destruct (get_prop data "ITEM") as [ITEM | e | ] eqn:E1; simpl;
      [ | eexists _, _; split; [ reflexivity | right; split; [ reflexivity | discriminate ] ]
        | destruct (get_prop_modelled _ _ E1) ].
    destruct (get_prop ITEM "PAIRING_REQ_TOKEN") as [token | e | ] eqn:E2; simpl;
      [ | eexists _, _; split; [ reflexivity | right; split; [ reflexivity | discriminate ] ]
        | destruct (get_prop_modelled _ _ E2) ].
    eexists _, _. split; [ reflexivity | ].
    left. exists data, ITEM, token. unfold status_is. auto 10.
  - destruct (is_string RESULT "BLOCKED");
      eexists _, _; (split; [ reflexivity | right; split; [ reflexivity | discriminate ] ]).
Qed.

(** X4. [pairing.initiate] fulfils its promise, with the raw response,
    exactly when the device answers SUCCESS with a readable ITEM, and then
    the stored pairing-request token becomes the PAIRING_REQ_TOKEN of that
    response. First part: such an answer fulfils the promise and stores the
    token. Second part: in every other case (failure response, transport
    failure, no answer) the promise is not fulfilled and the token stored
    before is kept. The auth token is never touched. *)
Theorem initiate_stores_request_token_only_on_success :
  forall D (w : world D) (d : D) (s : session) (deviceName deviceId : value)
         (res : option (outcome * session)) (tr : list exchange) (d' : D),
    run w (pairing_initiate deviceName deviceId s) d = (res, tr, d') ->
    (forall ex data ITEM token,
       In ex tr -> reply ex = Fulfilled data ->
       status_is data "SUCCESS" ->
       get_prop data "ITEM" = Normal ITEM ->
       get_prop ITEM "PAIRING_REQ_TOKEN" = Normal token ->
       exists s',
         res = Some (Fulfilled data, s') /\
         _pairingRequestToken s' = token /\
         _authKey s' = _authKey s)
    /\
    exists o s',
      res = Some (o, s') /\
      _authKey s' = _authKey s /\
      ((exists ex data ITEM token,
          In ex tr /\ reply ex = Fulfilled data /\ status_is data "SUCCESS" /\
          get_prop data "ITEM" = Normal ITEM /\
          get_prop ITEM "PAIRING_REQ_TOKEN" = Normal token /\
          o = Fulfilled data /\ _pairingRequestToken s' = token)
       \/ ((forall v, o <> Fulfilled v) /\
           _pairingRequestToken s' = _pairingRequestToken s)).
Proof.
  intros D w d s deviceName deviceId res tr d' Hrun.
  destruct (run_initiate w d s deviceName deviceId) as (t1 & t2 & o0 & d1 & H).
  cbv zeta in H. rewrite H in Hrun. injection Hrun as <- <- _.
  split.
  - intros ex data ITEM token Hin Hreply Hs HI Ht.
    apply only_exchange in Hin. subst ex. simpl in Hreply. subst o0.
    simpl. rewrite initiate_then_eq. unfold status_is in Hs. rewrite Hs. simpl.
    rewrite HI. simpl. rewrite Ht. simpl.
    eexists. split; [ reflexivity | split; reflexivity ].
  - match goal with
    | |- context [then_result _ ?s1 _] =>
        destruct (initiate_then_cases o0 s1) as (o' & s' & Hthen & Hcases)
    end.
    rewrite Hthen. exists o', s'. split; [ reflexivity | ].
    destruct Hcases as [(data & ITEM & token & -> & Hs & HI & Ht & -> & ->) | [-> Hnot]].
    + split; [ reflexivity | ]. left.
      eexists _, data, ITEM, token. split; [ left; reflexivity | ]. simpl. auto 10.
    + split; [ reflexivity | ]. right. split; [ exact Hnot | reflexivity ].
Qed.

Lemma initiate_stores_request_token_only_on_success_witness :
  let started := with_status "SUCCESS"
                   [("ITEM", VObject [("PAIRING_REQ_TOKEN", num 612345);
                                      ("CHALLENGE_TYPE", num 1)])] in
  let denied := with_status "INVALID_PARAMETER" [] in
  let x := run scripted (pairing_initiate (VString "remote") (VString "remote-1") tv)
               (answers [Fulfilled started]) in
  let y := run scripted (pairing_initiate (VString "remote") (VString "remote-1") tv)
               (answers [Fulfilled denied]) in
  (status_is started "SUCCESS" /\
   exists s',
     result x = Some (Fulfilled started, s') /\
     _pairingRequestToken s' = num 612345 /\
     _authKey s' = _authKey tv) /\
  (exists o s',
     result y = Some (o, s') /\
     _authKey s' = _authKey tv /\
     ((exists ex data ITEM token,
         In ex (exchanges y) /\ reply ex = Fulfilled data /\ status_is data "SUCCESS" /\
         get_prop data "ITEM" = Normal ITEM /\
         get_prop ITEM "PAIRING_REQ_TOKEN" = Normal token /\
         o = Fulfilled data /\ _pairingRequestToken s' = token)
      \/ ((forall v, o <> Fulfilled v) /\
          _pairingRequestToken s' = _pairingRequestToken tv))).
Proof.
  cbv zeta. split.
  - split; [ reflexivity | ].
    refine (proj1 (initiate_stores_request_token_only_on_success script scripted
                     (answers [Fulfilled (with_status "SUCCESS"
                                 [("ITEM", VObject [("PAIRING_REQ_TOKEN", num 612345);
                                                    ("CHALLENGE_TYPE", num 1)])])])
                     tv (VString "remote") (VString "remote-1") _ _ _ eq_refl)
                  _ _ _ (num 612345) (or_introl eq_refl) eq_refl eq_refl eq_refl eq_refl).
  - exact (proj2 (initiate_stores_request_token_only_on_success script scripted
                    (answers [Fulfilled (with_status "INVALID_PARAMETER" [])])
                    tv (VString "remote") (VString "remote-1") _ _ _ eq_refl)).
Defined.

(** X5. After a fulfilled [pairing.initiate], [pairing.pair(pin)] sends one
    PUT to [/pairing/pair], without headers, whose body holds the device id
    of that [initiate], CHALLENGE_TYPE 1, the pin as RESPONSE_VALUE and, as
    PAIRING_REQ_TOKEN, the token of the response [initiate] was fulfilled
    with. *)
Theorem pair_answers_the_challenge_of_initiate :
  forall D (w : world D) (d : D) (s : session) (deviceName deviceId pin : value)
         (r1 : value) (s1 : session) (tr1 : list exchange) (d1 : D),
    run w (pairing_initiate deviceName deviceId s) d = (Some (Fulfilled r1, s1), tr1, d1) ->
    forall D2 (w2 : world D2) (d2 : D2),
    exists ITEM token res2 o2 d2',
      get_prop r1 "ITEM" = Normal ITEM /\
      get_prop ITEM "PAIRING_REQ_TOKEN" = Normal token /\
      run w2 (pairing_pair pin s1) d2 =
        (res2,
         [{| sent_method := PUT;
             sent := {| url := host s ++ "/pairing/pair";
                        json := true;
                        rejectUnauthorized := false;
                        body := VObject [("DEVICE_ID", _deviceId s1);
                                         ("CHALLENGE_TYPE", num 1);
                                         ("RESPONSE_VALUE", pin);
                                         ("PAIRING_REQ_TOKEN", token)];
                        headers := None |};
             reply := o2 |}],
         d2').
Proof.
  intros D w d s deviceName deviceId pin r1 s1 tr1 d1 Hrun D2 w2 d2.
  destruct (run_initiate w d s deviceName deviceId) as (t1 & t2 & o0 & d0 & H).
  cbv zeta in H. rewrite H in Hrun. injection Hrun as Hres _ _.
  match type of Hres with
  | then_result _ ?s0 _ = _ =>
      destruct (initiate_then_cases o0 s0) as (o' & s' & Hthen & Hcases)
  end.
  rewrite Hthen in Hres. injection Hres as -> ->.
  destruct Hcases as [(data & ITEM & token & _ & _ & HI & Ht & Hd & ->) | [_ Hnot]];
    [ | destruct (Hnot r1 eq_refl) ].
  injection Hd as ->.
  destruct (run_pair w2 d2
              (set_pairingRequestToken
                 (set_deviceId
                    (set_deviceName s
                       (if truthy deviceName then deviceName
                        else VString ("node-app-" ++ string_of_Z t1)))
                    (if truthy deviceId then deviceId
                     else VString ("node-app-" ++ string_of_Z t2)))
                 token) pin) as (o2 & d2' & Hpair).
  eexists ITEM, token, _, o2, d2'.
  split; [ exact HI | ]. split; [ exact Ht | ]. exact Hpair.
Qed.

Lemma pair_answers_the_challenge_of_initiate_witness :
  let started := with_status "SUCCESS"
                   [("ITEM", VObject [("PAIRING_REQ_TOKEN", num 612345);
                                      ("CHALLENGE_TYPE", num 1)])] in
  let s1 := set_pairingRequestToken
              (set_deviceId (set_deviceName tv (VString "remote")) (VString "remote-1"))
              (num 612345) in
  run scripted (pairing_initiate (VString "remote") (VString "remote-1") tv)
      (answers [Fulfilled started]) =
    (Some (Fulfilled started, s1),
     exchanges (run scripted (pairing_initiate (VString "remote") (VString "remote-1") tv)
                    (answers [Fulfilled started])),
     answers []) /\
  exists ITEM token res2 o2 d2',
    get_prop started "ITEM" = Normal ITEM /\
    get_prop ITEM "PAIRING_REQ_TOKEN" = Normal token /\
    run scripted (pairing_pair (VString "1234") s1) (answers []) =
      (res2,
       [{| sent_method := PUT;
           sent := {| url := host tv ++ "/pairing/pair";
                      json := true;
                      rejectUnauthorized := false;
                      body := VObject [("DEVICE_ID", _deviceId s1);
                                       ("CHALLENGE_TYPE", num 1);
                                       ("RESPONSE_VALUE", VString "1234");
                                       ("PAIRING_REQ_TOKEN", token)];
                      headers := None |};
           reply := o2 |}],
       d2').
Proof.
  cbv zeta. split; [ reflexivity | ].
  exact (pair_answers_the_challenge_of_initiate script scripted
           (answers [Fulfilled (with_status "SUCCESS"
                       [("ITEM", VObject [("PAIRING_REQ_TOKEN", num 612345);
                                          ("CHALLENGE_TYPE", num 1)])])])
           tv (VString "remote") (VString "remote-1") (VString "1234")
           _ _ _ _ eq_refl script scripted (answers [])).
Defined.

Lemma get_prop_throws (v : value) (k : string) (e : value) :
  get_prop v k = Throw e -> e = VTypeError.
Proof. destruct v; simpl; intros H; try discriminate; injection H as <-; reflexivity. Qed.

Lemma status_result_throws (data e : value) :
  status_result data = Throw e -> e = VTypeError.
Proof.
  unfold status_result.
  destruct (get_prop data "STATUS") as [STATUS | e' | ] eqn:E; simpl.
  - apply get_prop_throws.
  - intros H. injection H as <-. exact (get_prop_throws _ _ _ E).
  - discriminate.
Qed.

(** X6. A response that reports SUCCESS but has no ITEM (or a null one)
    makes [pairing.initiate] and [pairing.pair] reject with a TypeError:
    the member of ITEM is read before the assignment, so the stored
    pairing-request token, respectively the whole session, stays as it
    was. *)
Theorem success_without_item_throws :
  (forall D (w : world D) (d : D) (s : session) (deviceName deviceId : value)
          (res : option (outcome * session)) (tr : list exchange) (d' : D),
      run w (pairing_initiate deviceName deviceId s) d = (res, tr, d') ->
      forall (ex : exchange) (data ITEM : value),
        In ex tr -> reply ex = Fulfilled data ->
        status_is data "SUCCESS" ->
        get_prop data "ITEM" = Normal ITEM ->
        ITEM = VUndefined \/ ITEM = VNull ->
        exists s',
          res = Some (Rejected VTypeError, s') /\
          _pairingRequestToken s' = _pairingRequestToken s /\
          _authKey s' = _authKey s)
  /\
  (forall D (w : world D) (d : D) (s : session) (pin : value)
          (res : option (outcome * session)) (tr : list exchange) (d' : D),
      run w (pairing_pair pin s) d = (res, tr, d') ->
      forall (ex : exchange) (data ITEM : value),
        In ex tr -> reply ex = Fulfilled data ->
        status_is data "SUCCESS" ->
        get_prop data "ITEM" = Normal ITEM ->
        ITEM = VUndefined \/ ITEM = VNull ->
        res = Some (Rejected VTypeError, s)).
Proof.
  split.
  - intros D w d s deviceName deviceId res tr d' Hrun ex data ITEM Hin Hreply Hs HI HN.
    destruct (run_initiate w d s deviceName deviceId) as (t1 & t2 & o & d1 & H).
    cbv zeta in H. rewrite H in Hrun. injection Hrun as <- <- _.
    apply only_exchange in Hin. subst ex. simpl in Hreply. subst o.
    simpl. rewrite initiate_then_eq. unfold status_is in Hs. rewrite Hs. simpl.
    rewrite HI. simpl.
    eexists. destruct HN as [-> | ->]; simpl; (split; [ reflexivity | split; reflexivity ]).
  - intros D w d s pin res tr d' Hrun ex data ITEM Hin Hreply Hs HI HN.
    destruct (run_pair w d s pin) as (o & d1 & H).
    rewrite H in Hrun. injection Hrun as <- <- _.
    apply only_exchange in Hin. subst ex. simpl in Hreply. subst o.
    simpl. rewrite pair_then_eq, (status_is_truthy _ _ Hs).
    unfold status_is in Hs. rewrite Hs. simpl. rewrite HI. simpl.
    destruct HN as [-> | ->]; reflexivity.
Qed.

Lemma success_without_item_throws_witness :
  let empty := with_status "SUCCESS" [] in
  (status_is empty "SUCCESS" /\
   get_prop empty "ITEM" = Normal VUndefined /\
   exists s',
     result (run scripted (pairing_initiate (VString "remote") (VString "remote-1") tv)
                 (answers [Fulfilled empty]))
       = Some (Rejected VTypeError, s') /\
     _pairingRequestToken s' = _pairingRequestToken tv /\
     _authKey s' = _authKey tv) /\
  result (run scripted (pairing_pair (VString "1234") tv) (answers [Fulfilled empty]))
    = Some (Rejected VTypeError, tv).
Proof.
  cbv zeta.
  destruct success_without_item_throws as [Hinit Hpair].
  split; [ split; [ reflexivity | split; [ reflexivity | ] ] | ].
  - exact (Hinit script scripted (answers [Fulfilled (with_status "SUCCESS" [])]) tv
             (VString "remote") (VString "remote-1") _ _ _ eq_refl
             _ (with_status "SUCCESS" []) VUndefined
             (or_introl eq_refl) eq_refl eq_refl eq_refl (or_introl eq_refl)).
  - exact (Hpair script scripted (answers [Fulfilled (with_status "SUCCESS" [])]) tv
             (VString "1234") _ _ _ eq_refl
             _ (with_status "SUCCESS" []) VUndefined
             (or_introl eq_refl) eq_refl eq_refl eq_refl (or_introl eq_refl)).
Defined.

(** X7. A response whose [STATUS.RESULT] cannot be read (an empty body, an
    object without STATUS) makes [pairing.initiate] reject with a
    TypeError, not with the response: its failure branch reads
    [data.STATUS.RESULT] without the guards of the success test. The
    stored pairing-request token is kept. [pairing.pair] does the same
    when the response is truthy. *)
Theorem unreadable_status_throws :
  (forall D (w : world D) (d : D) (s : session) (deviceName deviceId : value)
          (res : option (outcome * session)) (tr : list exchange) (d' : D),
      run w (pairing_initiate deviceName deviceId s) d = (res, tr, d') ->
      forall (ex : exchange) (data e : value),
        In ex tr -> reply ex = Fulfilled data ->
        status_result data = Throw e ->
        exists s',
          res = Some (Rejected VTypeError, s') /\
          _pairingRequestToken s' = _pairingRequestToken s)
  /\
  (forall D (w : world D) (d : D) (s : session) (pin : value)
          (res : option (outcome * session)) (tr : list exchange) (d' : D),
      run w (pairing_pair pin s) d = (res, tr, d') ->
      forall (ex : exchange) (data e : value),
        In ex tr -> reply ex = Fulfilled data ->
        status_result data = Throw e ->
        truthy data = true ->
        res = Some (Rejected VTypeError, s)).
Proof.
  split.
  - intros D w d s deviceName deviceId res tr d' Hrun ex data e Hin Hreply Hs.
    pose proof (status_result_throws _ _ Hs) as ->.
    destruct (run_initiate w d s deviceName deviceId) as (t1 & t2 & o & d1 & H).
    cbv zeta in H. rewrite H in Hrun. injection Hrun as <- <- _.
    apply only_exchange in Hin. subst ex. simpl in Hreply. subst o.
    simpl. rewrite initiate_then_eq, Hs.
    eexists. split; reflexivity.
  - intros D w d s pin res tr d' Hrun ex data e Hin Hreply Hs Ht.
    pose proof (status_result_throws _ _ Hs) as ->.
    destruct (run_pair w d s pin) as (o & d1 & H).
    rewrite H in Hrun. injection Hrun as <- <- _.
    apply only_exchange in Hin. subst ex. simpl in Hreply. subst o.
    simpl. rewrite pair_then_eq, Ht, Hs. reflexivity.
Qed.

Lemma unreadable_status_throws_witness :
  (status_result VUndefined = Throw VTypeError /\
   exists s',
     result (run scripted (pairing_initiate (VString "remote") (VString "remote-1") tv)
                 (answers [Fulfilled VUndefined]))
       = Some (Rejected VTypeError, s') /\
     _pairingRequestToken s' = _pairingRequestToken tv) /\
  (status_result (VObject []) = Throw VTypeError /\
   truthy (VObject []) = true /\
   result (run scripted (pairing_pair (VString "1234") tv) (answers [Fulfilled (VObject [])]))
     = Some (Rejected VTypeError, tv)).
Proof.
  destruct unreadable_status_throws as [Hinit Hpair].
  split; [ split; [ reflexivity | ] | split; [ reflexivity | split; [ reflexivity | ] ] ].
  - exact (Hinit script scripted (answers [Fulfilled VUndefined]) tv
             (VString "remote") (VString "remote-1") _ _ _ eq_refl
             _ VUndefined VTypeError (or_introl eq_refl) eq_refl eq_refl).
  - exact (Hpair script scripted (answers [Fulfilled (VObject [])]) tv
             (VString "1234") _ _ _ eq_refl
             _ (VObject []) VTypeError (or_introl eq_refl) eq_refl eq_refl eq_refl).
Defined.

Lemma initiate_failure_is_raw_witness :
  let denied := with_status "INVALID_PARAMETER" [] in
  status_result denied = Normal (VString "INVALID_PARAMETER") /\
  is_string (VString "INVALID_PARAMETER") "SUCCESS" = false /\
  is_string (VString "INVALID_PARAMETER") "BLOCKED" = false /\
  exists s',
    result (run scripted (pairing_initiate (VString "remote") (VString "remote-1") tv)
                (answers [Fulfilled denied]))
      = Some (Rejected denied, s') /\
    _pairingRequestToken s' = _pairingRequestToken tv.
Proof.
  cbv zeta. repeat (split; [ reflexivity | ]).
  exact (initiate_failure_is_raw script scripted
           (answers [Fulfilled (with_status "INVALID_PARAMETER" [])]) tv
           (VString "remote") (VString "remote-1") _ _ _ eq_refl
           _ (with_status "INVALID_PARAMETER" []) (VString "INVALID_PARAMETER")
           (or_introl eq_refl) eq_refl eq_refl eq_refl eq_refl).
Defined.

(* ================================================================== *)
(** ** 15. More on input selection *)
(* ================================================================== *)

(** X9. When both reads of [input.set] report SUCCESS and no item of the
    (well-formed) list matches the name, by internal or by display name,
    the promise is rejected with ['Input: ' + name + ' not found'] and no
    modify request is sent. *)
Theorem input_set_unknown_name_is_not_found :
  forall {JS : Engine} D (w : world D) (d : D) (s : session) (name : string)
         (res : option outcome) (ex1 ex2 : exchange) (rest : list exchange) (d' : D)
         (inputList currentInput : value) (items : list value),
    run w (input_set name s) d = (res, ex1 :: ex2 :: rest, d') ->
    reply ex1 = Fulfilled inputList ->
    reply ex2 = Fulfilled currentInput ->
    status_is inputList "SUCCESS" ->
    status_is currentInput "SUCCESS" ->
    get_prop inputList "ITEMS" = Normal (VArray items) ->
    Forall well_formed_item items ->
    resolve_input name items = None ->
    res = Some (Rejected (VString ("Input: " ++ name ++ " not found"))) /\ rest = [].
Proof.
  intros JS D w d s name res ex1 ex2 rest d' inputList currentInput items
         Hrun R1 R2 S1 S2 HI Hwf Hres.
  pose proof (run_input_set_fulfilled w d s name res ex1 ex2 rest d' _ _ Hrun R1 R2) as H.
  assert (Hthen : input_set_then name inputList currentInput =
            Normal (RejectWith (VString ("Input: " ++ name ++ " not found")))).
  { rewrite input_set_then_eq, (findInputByName_well_formed _ _ _ HI Hwf), Hres.
    unfold status_is in S1, S2. simpl. rewrite S1. simpl. rewrite S2. reflexivity. }
  rewrite Hthen in H. exact H.
Qed.

Lemma input_set_unknown_name_is_not_found_witness :
  let JS := ascii_engine in
  let x := run scripted (input_set "scart" tv)
               (answers [Fulfilled input_list_response; Fulfilled current_input_response]) in
  resolve_input "scart" [input_item "cast" "CAST"; input_item "hdmi1" "HDMI-1";
                         input_item "hdmi2" "Console"] = None /\
  result x = Some (Rejected (VString "Input: scart not found")) /\
  skipn 2 (exchanges x) = [].
Proof.
  cbv zeta. split; [ reflexivity | ].
  refine (input_set_unknown_name_is_not_found (JS := ascii_engine) script scripted
            (answers [Fulfilled input_list_response; Fulfilled current_input_response])
            tv "scart" _ _ _ _ _ input_list_response current_input_response
            [input_item "cast" "CAST"; input_item "hdmi1" "HDMI-1";
             input_item "hdmi2" "Console"]
            eq_refl eq_refl eq_refl eq_refl eq_refl eq_refl _ eq_refl).
  repeat constructor; apply input_item_well_formed.
Defined.

(** X10. When both reads of [input.set] report SUCCESS and the name is
    resolved, but the current-input response has an empty ITEMS array, the
    HASHVAL cannot be read: the promise is rejected with a TypeError and no
    modify request is sent. *)
Theorem input_set_without_current_item_throws :
  forall {JS : Engine} D (w : world D) (d : D) (s : session) (name : string)
         (res : option outcome) (ex1 ex2 : exchange) (rest : list exchange) (d' : D)
         (inputList currentInput : value) (items : list value) (internal : value),
    run w (input_set name s) d = (res, ex1 :: ex2 :: rest, d') ->
    reply ex1 = Fulfilled inputList ->
    reply ex2 = Fulfilled currentInput ->
    status_is inputList "SUCCESS" ->
    status_is currentInput "SUCCESS" ->
    get_prop inputList "ITEMS" = Normal (VArray items) ->
    Forall well_formed_item items ->
    resolve_input name items = Some internal ->
    truthy internal = true ->
    get_prop currentInput "ITEMS" = Normal (VArray []) ->
    res = Some (Rejected VTypeError) /\ rest = [].
Proof.
  intros JS D w d s name res ex1 ex2 rest d' inputList currentInput items internal
         Hrun R1 R2 S1 S2 HI Hwf Hres Ht HC.
  pose proof (run_input_set_fulfilled w d s name res ex1 ex2 rest d' _ _ Hrun R1 R2) as H.
  assert (Hthen : input_set_then name inputList currentInput = Throw VTypeError).
  { rewrite input_set_then_eq, (findInputByName_well_formed _ _ _ HI Hwf), Hres.
    unfold status_is in S1, S2. simpl. rewrite S1. simpl. rewrite S2. simpl.
    rewrite Ht. simpl. rewrite HC. reflexivity. }
  rewrite Hthen in H. exact H.
Qed.

Lemma input_set_without_current_item_throws_witness :
  let JS := ascii_engine in
  let current := with_status "SUCCESS" [("ITEMS", VArray [])] in
  let x := run scripted (input_set "hdmi1" tv)
               (answers [Fulfilled input_list_response; Fulfilled current]) in
  resolve_input "hdmi1" [input_item "cast" "CAST"; input_item "hdmi1" "HDMI-1";
                         input_item "hdmi2" "Console"] = Some (VString "hdmi1") /\
  result x = Some (Rejected VTypeError) /\
  skipn 2 (exchanges x) = [].
Proof.
  cbv zeta. split; [ reflexivity | ].
  refine (input_set_without_current_item_throws (JS := ascii_engine) script scripted
            (answers [Fulfilled input_list_response;
                      Fulfilled (with_status "SUCCESS" [("ITEMS", VArray [])])])
            tv "hdmi1" _ _ _ _ _ input_list_response
            (with_status "SUCCESS" [("ITEMS", VArray [])])
            [input_item "cast" "CAST"; input_item "hdmi1" "HDMI-1";
             input_item "hdmi2" "Console"]
            (VString "hdmi1")
            eq_refl eq_refl eq_refl eq_refl eq_refl eq_refl _ eq_refl eq_refl eq_refl).
  repeat constructor; apply input_item_well_formed.
Defined.


Lemma input_set_failed_read_sends_no_modify_witness :
  let JS := ascii_engine in
  let failed := with_status "FAILURE" [] in
  let x := run scripted (input_set "hdmi1" tv)
               (answers [Fulfilled failed; Fulfilled current_input_response;
                         Fulfilled (with_status "SUCCESS" [])]) in
  ~ status_is failed "SUCCESS" /\
  skipn 2 (exchanges x) = [].
Proof.
  cbv zeta. split; [ discriminate | ].
  refine (input_set_failed_read_sends_no_modify (JS := ascii_engine) script scripted
            (answers [Fulfilled (with_status "FAILURE" []);
                      Fulfilled current_input_response;
                      Fulfilled (with_status "SUCCESS" [])])
            tv "hdmi1" _ _ _ _ _ (with_status "FAILURE" []) current_input_response
            eq_refl eq_refl eq_refl _).
  left. discriminate.
Defined.

Lemma transport_failure_is_propagated_witness :
  let JS := ascii_engine in
  let refused := VError "connect ECONNREFUSED 192.168.0.101:9000" in
  let x := run scripted (perform (InputSet "hdmi1") tv)
               (answers [Fulfilled input_list_response; Rejected refused]) in
  InputSet "hdmi1" <> VolumeGet /\
  InputSet "hdmi1" <> GetMuteState /\
  (exists ex e, In ex (exchanges x) /\ reply ex = Rejected e) /\
  exists e s',
    result x = Some (Rejected e, s') /\
    exists ex, In ex (exchanges x) /\ reply ex = Rejected e.
Proof.
  cbv zeta.
  assert (Hg : InputSet "hdmi1" <> VolumeGet) by discriminate.
  assert (Hm : InputSet "hdmi1" <> GetMuteState) by discriminate.
  assert (Hex : exists ex e,
            In ex (exchanges (run scripted (perform (JS := ascii_engine) (InputSet "hdmi1") tv)
                                  (answers [Fulfilled input_list_response;
                                            Rejected (VError
                                              "connect ECONNREFUSED 192.168.0.101:9000")])))
            /\ reply ex = Rejected e).
  { eexists _, _. split; [ right; left; reflexivity | reflexivity ]. }
  split; [ exact Hg | ]. split; [ exact Hm | ]. split; [ exact Hex | ].
  exact (transport_failure_is_propagated (JS := ascii_engine) script scripted
           (answers [Fulfilled input_list_response;
                     Rejected (VError "connect ECONNREFUSED 192.168.0.101:9000")])
           (InputSet "hdmi1") tv _ _ _ Hg Hm eq_refl Hex).
Defined.

Lemma search_internal_lower {JS : Engine} (name name' : string) (items : list value) :
  lower name = lower name' -> search_internal name items = search_internal name' items.
Proof.
  intros H. induction items as [ | item rest IH]; simpl; [ reflexivity | ].
  destruct (get_prop item "NAME") as [NAME | e | ]; simpl; try reflexivity.
  destruct (toLowerCase NAME) as [l | e | ]; simpl; try reflexivity.
  rewrite H, IH. reflexivity.
Qed.

Lemma search_user_lower {JS : Engine} (name name' : string) (items : list value) :
  lower name = lower name' -> search_user name items = search_user name' items.
Proof.
  intros H. induction items as [ | item rest IH]; simpl; [ reflexivity | ].
  destruct (get_prop item "VALUE") as [VALUE | e | ]; simpl; try reflexivity.
  destruct (get_prop VALUE "NAME") as [NAME | e | ]; simpl; try reflexivity.
  destruct (toLowerCase NAME) as [l | e | ]; simpl; try reflexivity.
  rewrite H, IH. reflexivity.
Qed.

(** X11. [findInputByName] does not see the letter case of the requested
    name: two names with the same lower-case form, as [toLowerCase] of the
    engine gives it, have the same result on every list, be it a name,
    [null] or an exception. In particular two ASCII names that differ only
    in the case of the letters A-Z have the same result. *)
Theorem findInputByName_ignores_case_of_request :
  forall {JS : Engine} (name name' : string) (inputList : value),
    (lower name = lower name' ->
     findInputByName name inputList = findInputByName name' inputList) /\
    (ascii_only name = true -> ascii_only name' = true -> fold name = fold name' ->
     findInputByName name inputList = findInputByName name' inputList).
Proof.
  intros JS name name' inputList.
  assert (Hmain : lower name = lower name' ->
                  findInputByName name inputList = findInputByName name' inputList).
  { intros H. unfold findInputByName.
    destruct (get_prop inputList "ITEMS") as [ITEMS | e | ]; simpl; try reflexivity.
    destruct (elements ITEMS) as [items | e | ]; simpl; try reflexivity.
    rewrite (search_internal_lower _ _ items H), (search_user_lower _ _ items H).
    reflexivity. }
  split; [ exact Hmain | ].
  intros Ha Ha' Hf. apply Hmain.
  rewrite (lower_ascii name Ha), (lower_ascii name' Ha'). exact Hf.
Qed.

Lemma findInputByName_ignores_case_of_request_witness :
  let JS := ascii_engine in
  ascii_only "HDMI-1" = true /\ ascii_only "hdmi-1" = true /\
  fold "HDMI-1" = fold "hdmi-1" /\
  "HDMI-1" <> "hdmi-1" /\
  findInputByName "HDMI-1" input_list_response
    = findInputByName "hdmi-1" input_list_response.
Proof.
  cbv zeta. repeat (split; [ reflexivity || discriminate | ]).
  exact (proj2 (findInputByName_ignores_case_of_request (JS := ascii_engine)
                  "HDMI-1" "hdmi-1" input_list_response) eq_refl eq_refl eq_refl).
Defined.

Lemma find_all_false {A} (f : A -> bool) (l : list A) :
  (forall x, In x l -> f x = false) -> find f l = None.
Proof.
  induction l as [ | a l IH]; simpl; intros H; [ reflexivity | ].
  rewrite (H a (or_introl eq_refl)). apply IH. intros x Hx. apply H. right. exact Hx.
Qed.

(** X12. On a list of well-formed items, [findInputByName] returns [null]
    exactly when no item matches the name by its internal or its display
    name; any other result is the internal name of an item of the list
    that matches, so a string the device itself sent. *)
Theorem findInputByName_null_iff_no_match :
  forall {JS : Engine} (name : string) (inputList : value) (items : list value),
    get_prop inputList "ITEMS" = Normal (VArray items) ->
    Forall well_formed_item items ->
    (findInputByName name inputList = Normal VNull <->
     forall item, In item items ->
       same_name name (internal_name item) = false /\
       same_name name (display_name item) = false) /\
    (forall v, findInputByName name inputList = Normal v -> v <> VNull ->
     exists item,
       In item items /\ internal_name item = v /\
       (same_name name (internal_name item) = true \/
        same_name name (display_name item) = true)).
Proof.
  intros JS name inputList items HI Hwf.
  rewrite (findInputByName_well_formed _ _ _ HI Hwf).
  assert (Hstr : forall item, In item items -> internal_name item <> VNull).
  { intros item Hin. rewrite Forall_forall in Hwf.
    destruct (Hwf item Hin) as [[n Hn] _]. rewrite Hn. discriminate. }
  unfold resolve_input.
  destruct (find (fun item => same_name name (internal_name item)) items)
    as [item1 | ] eqn:F1.
  - apply find_some in F1. destruct F1 as [Hin1 Hm1]. split.
    + split.
      * intros H. injection H as H. destruct (Hstr item1 Hin1 H).
      * intros H. destruct (H item1 Hin1) as [H1 _]. congruence.
    + intros v Hv _. injection Hv as <-. exists item1. auto.
  - destruct (find (fun item => same_name name (display_name item)) items)
      as [item2 | ] eqn:F2.
    + apply find_some in F2. destruct F2 as [Hin2 Hm2]. split.
      * split.
        -- intros H. injection H as H. destruct (Hstr item2 Hin2 H).
        -- intros H. destruct (H item2 Hin2) as [_ H2]. congruence.
      * intros v Hv _. injection Hv as <-. exists item2. auto.
    + split.
      * split; [ | reflexivity ].
        intros _ item Hin. split.
        -- exact (find_none _ _ F1 item Hin).
        -- exact (find_none _ _ F2 item Hin).
      * intros v Hv Hn. injection Hv as <-. destruct (Hn eq_refl).
Qed.

Lemma findInputByName_null_iff_no_match_witness :
  let JS := ascii_engine in
  let items := [input_item "cast" "CAST"; input_item "hdmi1" "HDMI-1";
                input_item "hdmi2" "Console"] in
  get_prop input_list_response "ITEMS" = Normal (VArray items) /\
  findInputByName "scart" input_list_response = Normal VNull /\
  exists item,
    In item items /\ internal_name item = VString "hdmi2" /\
    (same_name "console" (internal_name item) = true \/
     same_name "console" (display_name item) = true).
Proof.
  cbv zeta.
  assert (Hwf : Forall well_formed_item
                  [input_item "cast" "CAST"; input_item "hdmi1" "HDMI-1";
                   input_item "hdmi2" "Console"])
    by (repeat constructor; apply input_item_well_formed).
  destruct (findInputByName_null_iff_no_match (JS := ascii_engine) "scart" input_list_response _ eq_refl Hwf)
    as [[_ Hnull] _].
  destruct (findInputByName_null_iff_no_match (JS := ascii_engine) "console" input_list_response _ eq_refl Hwf)
    as [_ Hsome].
  split; [ reflexivity | ]. split.
  - apply Hnull. intros item Hin.
    destruct Hin as [<- | [<- | [<- | []]]]; split; reflexivity.
  - apply Hsome; [ reflexivity | discriminate ].
Defined.

(* ================================================================== *)
(** ** 16. The named key commands *)
(* ================================================================== *)

Ltac unfold_commands :=
  unfold perform, keep, control_volume_down, control_volume_up, control_volume_unmute,
    control_volume_mute, control_volume_toggleMute, control_input_cycle,
    control_power_off, control_power_on, control_power_toggle,
    control_media_seek_forward, control_media_seek_back, control_media_play,
    control_media_pause, control_media_cc, control_menu, control_info,
    control_smartcast, control_keyCommand, sendRequest, exchanges in *.

(** X16. Each named command ([volume.up], [power.toggle], [media.play],
    [menu], ...) sends one PUT to [/key_command/] with a single key whose
    ACTION is 'KEYPRESS', and no two of the seventeen send the same key:
    commands with the same request body are the same command. *)
Theorem named_commands_press_distinct_keys :
  forall {JS : Engine} D (w : world D) (d : D) (s : session) (op : operation),
    named_command op = true ->
    (exists (codeset code : Z) o d',
       run w (perform op s) d =
         (Some (o, s),
          [{| sent_method := PUT;
              sent := {| url := host s ++ "/key_command/";
                         json := true;
                         rejectUnauthorized := false;
                         body := VObject
                           [("KEYLIST",
                             VArray [VObject [("CODESET", num codeset);
                                              ("CODE", num code);
                                              ("ACTION", VString "KEYPRESS")]])];
                         headers := if truthy (_authKey s)
                                    then Some [("AUTH", _authKey s)] else None |};
              reply := o |}],
          d')) /\
    (forall op',
       named_command op' = true ->
       map (fun ex => body (sent ex)) (exchanges (run w (perform op' s) d)) =
       map (fun ex => body (sent ex)) (exchanges (run w (perform op s) d)) ->
       op' = op).
Proof.
  intros JS D w d s op Hop. split.
  - destruct op; try discriminate Hop; unfold_commands; simpl;
      destruct (respond w d PUT _) as [o d1];
      eexists _, _, o, d1; reflexivity.
  - intros op' Hop' H.
    destruct op; try discriminate Hop; destruct op'; try discriminate Hop';
      try reflexivity;
      unfold_commands; simpl in H;
      repeat match type of H with
             | context [respond w d ?m ?r] => destruct (respond w d m r)
             end;
      simpl in H; discriminate H.
Qed.

Lemma named_commands_press_distinct_keys_witness :
  let JS := ascii_engine in
  named_command Mute = true /\
  (exists (codeset code : Z) o d',
     run scripted (perform Mute tv) (answers [Fulfilled (with_status "SUCCESS" [])]) =
       (Some (o, tv),
        [{| sent_method := PUT;
            sent := {| url := host tv ++ "/key_command/";
                       json := true;
                       rejectUnauthorized := false;
                       body := VObject
                         [("KEYLIST",
                           VArray [VObject [("CODESET", num codeset);
                                            ("CODE", num code);
                                            ("ACTION", VString "KEYPRESS")]])];
                       headers := if truthy (_authKey tv)
                                  then Some [("AUTH", _authKey tv)] else None |};
            reply := o |}],
        d')).
Proof.
  split; [ reflexivity | ].
  exact (proj1 (named_commands_press_distinct_keys script scripted
                  (answers [Fulfilled (with_status "SUCCESS" [])]) tv Mute eq_refl)).
Defined.

(* ================================================================== *)
(** ** 17. Further edge behaviour *)
(* ================================================================== *)

(** X17. When one read of [input.set] is never answered and the other is
    not rejected, the promise of [input.set] is never settled and no modify
    request is sent: [Promise.all] waits for both. *)
Theorem input_set_waits_for_both_reads :
  forall {JS : Engine} D (w : world D) (d : D) (s : session) (name : string)
         (res : option outcome) (ex1 ex2 : exchange) (rest : list exchange) (d' : D),
    run w (input_set name s) d = (res, ex1 :: ex2 :: rest, d') ->
    (reply ex1 = Pending /\ forall e, reply ex2 <> Rejected e) \/
    (reply ex2 = Pending /\ forall e, reply ex1 <> Rejected e) ->
    res = Some Pending /\ rest = [].
Proof.
  intros JS D w d s name res ex1 ex2 rest d' Hrun Hp.
  destruct (run_input_set w d s name) as (o1 & o2 & d2 & H). cbv zeta in H.
  destruct o1 as [l | e1 | ]; destruct o2 as [c | e2 | ];
    try (destruct H as (r & d3 & Hr & Hres); rewrite Hr in Hrun;
         injection Hrun as <- <- <- <- _; simpl in Hp;
         first
           [ destruct Hp as [[Hp _] | [Hp _]]; discriminate Hp
           | destruct Hp as [[_ Hp] | [_ Hp]]; exfalso; eapply Hp; reflexivity
           | destruct Hp as [[Hp _] | [_ Hp]];
             [ discriminate Hp | exfalso; eapply Hp; reflexivity ]
           | destruct Hp as [[_ Hp] | [Hp _]];
             [ exfalso; eapply Hp; reflexivity | discriminate Hp ]
           | subst r; split; reflexivity ]).
  exfalso.
  destruct (input_set_then name l c) as [[e | data] | e | ];
    try (destruct H as (o3 & d3 & H));
    rewrite H in Hrun; injection Hrun as _ <- <- _; simpl in Hp;
    destruct Hp as [[Hp _] | [Hp _]]; discriminate Hp.
Qed.

Lemma input_set_waits_for_both_reads_witness :
  let JS := ascii_engine in
  let x := run scripted (input_set "hdmi1" tv) (answers [Fulfilled input_list_response]) in
  (exists ex1 ex2,
     firstn 2 (exchanges x) = [ex1; ex2] /\
     reply ex2 = Pending /\ forall e, reply ex1 <> Rejected e) /\
  result x = Some Pending /\
  skipn 2 (exchanges x) = [].
Proof.
  cbv zeta. split.
  - eexists _, _. split; [ reflexivity | ]. split; [ reflexivity | discriminate ].
  - refine (input_set_waits_for_both_reads (JS := ascii_engine) script scripted
              (answers [Fulfilled input_list_response]) tv "hdmi1" _ _ _ _ _ eq_refl _).
    right. split; [ reflexivity | discriminate ].
Defined.

(** X18. [findInputByName] reads the NAME of every item up to the first
    match on an internal name: an item whose NAME is not a string, with no
    such match before it, makes the lookup throw a TypeError, also when a
    later item would match. *)
Theorem findInputByName_throws_on_item_without_name :
  forall {JS : Engine} (name : string) (inputList : value) (before after : list value) (bad : value),
    get_prop inputList "ITEMS" = Normal (VArray (before ++ bad :: after)%list) ->
    Forall (fun item => exists n, internal_name item = VString n /\
                                  same_name name (VString n) = false) before ->
    (forall n, get_prop bad "NAME" <> Normal (VString n)) ->
    findInputByName name inputList = Throw VTypeError.
Proof.
  intros JS name inputList before after bad HI Hbefore Hbad.
  unfold findInputByName. rewrite HI. simpl.
  assert (H : search_internal name (before ++ bad :: after)%list = Throw VTypeError).
  { clear HI. induction Hbefore as [ | item rest (n & Hn & Hm) _ IH]; simpl.
    - destruct (get_prop bad "NAME") as [NAME | e | ] eqn:E; simpl.
      + destruct NAME; try reflexivity. destruct (Hbad _ eq_refl).
      + f_equal. exact (get_prop_throws _ _ _ E).
      + destruct (get_prop_modelled _ _ E).
    - unfold internal_name in Hn.
      destruct (get_prop item "NAME") as [NAME | e | ]; try discriminate.
      subst NAME. simpl. simpl in Hm. rewrite Hm. exact IH. }
  rewrite H. reflexivity.
Qed.

Lemma findInputByName_throws_on_item_without_name_witness :
  let JS := ascii_engine in
  let broken := VObject [("HASHVAL", num 302);
                         ("VALUE", VObject [("NAME", VString "Antenna")])] in
  let inputList := with_status "SUCCESS"
                     [("ITEMS", VArray [input_item "cast" "CAST"; broken;
                                        input_item "hdmi1" "HDMI-1"])] in
  (forall n, get_prop broken "NAME" <> Normal (VString n)) /\
  findInputByName "hdmi1" inputList = Throw VTypeError.
Proof.
  cbv zeta.
  assert (Hbad : forall n,
            get_prop (VObject [("HASHVAL", num 302);
                               ("VALUE", VObject [("NAME", VString "Antenna")])]) "NAME"
            <> Normal (VString n)) by (intros n; discriminate).
  split; [ exact Hbad | ].
  refine (findInputByName_throws_on_item_without_name "hdmi1"
            (with_status "SUCCESS"
               [("ITEMS", VArray [input_item "cast" "CAST";
                                  VObject [("HASHVAL", num 302);
                                           ("VALUE", VObject [("NAME", VString "Antenna")])];
                                  input_item "hdmi1" "HDMI-1"])])
            [input_item "cast" "CAST"] [input_item "hdmi1" "HDMI-1"]
            (VObject [("HASHVAL", num 302);
                      ("VALUE", VObject [("NAME", VString "Antenna")])])
            eq_refl _ Hbad).
  repeat constructor. exists "cast". split; reflexivity.
Defined.

(** What [then] makes of the callback of [pair], case by case. *)
Lemma pair_then_cases (o : outcome) (s : session) :
  exists o' s',
    then_result o s pair_then = Some (o', s') /\
    ((exists data ITEM token,
        o = Fulfilled data /\ status_is data "SUCCESS" /\
        get_prop data "ITEM" = Normal ITEM /\
        get_prop ITEM "AUTH_TOKEN" = Normal token /\
        o' = Fulfilled data /\ s' = set_authKey s token)
     \/ (s' = s /\ forall v, o' <> Fulfilled v)).
Proof.
  destruct o as [data | e | ]; simpl;
    [ | eexists _, _; split; [ reflexivity | right; split; [ reflexivity | discriminate ] ]
      | eexists _, _; split; [ reflexivity | right; split; [ reflexivity | discriminate ] ] ].
  rewrite pair_then_eq.
  destruct (truthy data);
    [ | eexists _, _; split; [ reflexivity | right; split; [ reflexivity | discriminate ] ] ].
  destruct (status_result data) as [RESULT | e | ] eqn:E;
    [ | eexists _, _; split; [ reflexivity | right; split; [ reflexivity | discriminate ] ]
      | destruct (status_result_modelled _ E) ].
  destruct (is_string RESULT "SUCCESS") eqn:Es;
    [ | eexists _, _; split; [ reflexivity | right; split; [ reflexivity | discriminate ] ] ].
  apply is_string_eq in Es. subst RESULT.
  destruct (get_prop data "ITEM") as [ITEM | e | ] eqn:E1; simpl;
    [ | eexists _, _; split; [ reflexivity | right; split; [ reflexivity | discriminate ] ]
      | destruct (get_prop_modelled _ _ E1) ].
  destruct (get_prop ITEM "AUTH_TOKEN") as [token | e | ] eqn:E2; simpl;
    [ | eexists _, _; split; [ reflexivity | right; split; [ reflexivity | discriminate ] ]
      | destruct (get_prop_modelled _ _ E2) ].
  eexists _, _. split; [ reflexivity | ].
  left. exists data, ITEM, token. unfold status_is. auto 10.
Qed.

(** X19. From an instance built without a token, once [pairing.initiate]
    and then [pairing.pair] are fulfilled, the session holds the
    AUTH_TOKEN of the response to [pair], and (the token being a non-empty
    string) every request of every authenticated operation that follows
    carries it in the AUTH header. *)
Theorem pairing_enables_authenticated_requests :
  forall {JS : Engine} D (w : world D) (d : D) (h : string) (deviceName deviceId pin : value)
         (r1 r2 : value) (s1 s2 : session) (tr1 tr2 : list exchange) (d1 d2 : D),
    run w (pairing_initiate deviceName deviceId (SMARTCAST h VUndefined)) d
      = (Some (Fulfilled r1, s1), tr1, d1) ->
    run w (pairing_pair pin s1) d1 = (Some (Fulfilled r2, s2), tr2, d2) ->
    exists ITEM token,
      get_prop r2 "ITEM" = Normal ITEM /\
      get_prop ITEM "AUTH_TOKEN" = Normal token /\
      _authKey s2 = token /\
      (truthy token = true ->
       forall op D3 (w3 : world D3) (d3 : D3),
         authenticated op = true ->
         Forall (fun ex => carries_AUTH token (sent ex))
                (exchanges (run w3 (perform op s2) d3))).
Proof.
  intros JS D w d h deviceName deviceId pin r1 r2 s1 s2 tr1 tr2 d1 d2 _ Hpair.
  destruct (run_pair w d1 s1 pin) as (o & d0 & H).
  rewrite H in Hpair. injection Hpair as Hres _ _.
  destruct (pair_then_cases o s1) as (o' & s' & Hthen & Hcases).
  rewrite Hthen in Hres. injection Hres as -> ->.
  destruct Hcases as [(data & ITEM & token & _ & _ & HI & Ht & Hd & ->) | [_ Hnot]];
    [ | destruct (Hnot r2 eq_refl) ].
  injection Hd as ->.
  exists ITEM, token. split; [ exact HI | ]. split; [ exact Ht | ].
  split; [ reflexivity | ].
  intros Htruthy op D3 w3 d3 Hop.
  assert (Hkey : truthy (_authKey (set_authKey s1 token)) = true) by exact Htruthy.
  eapply Forall_impl;
    [ | exact (always_sends_run _ w3 _ (perform_on_the_wire op _ Hkey) d3) ].
  intros ex [Hh _]. rewrite Hop in Hh. exact Hh.
Qed.

Lemma pairing_enables_authenticated_requests_witness :
  let JS := ascii_engine in
  let started := with_status "SUCCESS"
                   [("ITEM", VObject [("PAIRING_REQ_TOKEN", num 612345);
                                      ("CHALLENGE_TYPE", num 1)])] in
  let paired := with_status "SUCCESS"
                  [("ITEM", VObject [("AUTH_TOKEN", VString "Zb8x2yqjan")])] in
  let fresh := SMARTCAST "192.168.0.101" VUndefined in
  let s1 := set_pairingRequestToken
              (set_deviceId (set_deviceName fresh (VString "remote")) (VString "remote-1"))
              (num 612345) in
  let s2 := set_authKey s1 (VString "Zb8x2yqjan") in
  result (run scripted (pairing_initiate (VString "remote") (VString "remote-1") fresh)
              (answers [Fulfilled started; Fulfilled paired]))
    = Some (Fulfilled started, s1) /\
  result (run scripted (pairing_pair (VString "1234") s1) (answers [Fulfilled paired]))
    = Some (Fulfilled paired, s2) /\
  exists ITEM token,
    get_prop paired "ITEM" = Normal ITEM /\
    get_prop ITEM "AUTH_TOKEN" = Normal token /\
    _authKey s2 = token /\
    (truthy token = true ->
     forall op D3 (w3 : world D3) (d3 : D3),
       authenticated op = true ->
       Forall (fun ex => carries_AUTH token (sent ex))
              (exchanges (run w3 (perform op s2) d3))).
Proof.
  cbv zeta. split; [ reflexivity | ]. split; [ reflexivity | ].
  exact (pairing_enables_authenticated_requests script scripted
           (answers [Fulfilled (with_status "SUCCESS"
                       [("ITEM", VObject [("PAIRING_REQ_TOKEN", num 612345);
                                          ("CHALLENGE_TYPE", num 1)])]);
                     Fulfilled (with_status "SUCCESS"
                       [("ITEM", VObject [("AUTH_TOKEN", VString "Zb8x2yqjan")])])])
           "192.168.0.101" (VString "remote") (VString "remote-1") (VString "1234")
           _ _ _ _ _ _ _ _ eq_refl eq_refl).
Defined.
